(** * Blacklist maintenance scripts: merge and validation

    A shallow embedding of [scripts/merge_blacklist.py] and
    [scripts/validate_blacklist.py].

    Python [str] values are modelled as [string], each character being read
    as the code point U+0000..U+00FF it denotes.  The library methods the
    scripts call ([strip], [lower], [isdigit], [int], [split], [join],
    [splitlines], [re.match]) are written out on that range. *)

From Stdlib Require Import Ascii String DecimalString NArith ZArith List Permutation Sorted Lia.
From stdpp Require Import gmap strings list sorting.

Local Open Scope string_scope.

(** ** Python string methods *)

Module Py.

Definition ord (c : ascii) : N := N_of_ascii c.

Definition between (lo hi n : N) : bool := ((lo <=? n) && (n <=? hi))%N.

(** [str.isspace] on one character: U+0009..U+000D, U+001C..U+0020,
    U+0085 and U+00A0. *)
Definition isspace (c : ascii) : bool :=
  let n := ord c in
  between 9 13 n || between 28 32 n || (n =? 133)%N || (n =? 160)%N.

(** [str.isdigit] on one character: the decimal digits and the
    superscripts U+00B2, U+00B3, U+00B9. *)
Definition isdigit_char (c : ascii) : bool :=
  let n := ord c in
  between 48 57 n || (n =? 178)%N || (n =? 179)%N || (n =? 185)%N.

(** The characters [int] and the regex class [\d] accept as digits. *)
Definition isdecimal_char (c : ascii) : bool := between 48 57 (ord c).

Definition isupper_char (c : ascii) : bool :=
  let n := ord c in
  between 65 90 n || between 192 214 n || between 216 222 n.

Definition lower_char (c : ascii) : ascii :=
  if isupper_char c then ascii_of_N (ord c + 32) else c.

Fixpoint lower (s : string) : string :=
  match s with
  | EmptyString => EmptyString
  | String c s' => String (lower_char c) (lower s')
  end.

Fixpoint lstrip (s : string) : string :=
  match s with
  | EmptyString => EmptyString
  | String c s' => if isspace c then lstrip s' else s
  end.

Fixpoint rstrip (s : string) : string :=
  match s with
  | EmptyString => EmptyString
  | String c s' =>
      match rstrip s' with
      | EmptyString => if isspace c then EmptyString else String c EmptyString
      | r => String c r
      end
  end.

Definition strip (s : string) : string := rstrip (lstrip s).

(** [s.lstrip(chars)] for a one-character [chars]. *)
Fixpoint lstrip_char (ch : ascii) (s : string) : string :=
  match s with
  | EmptyString => EmptyString
  | String c s' => if Ascii.eqb c ch then lstrip_char ch s' else s
  end.

Fixpoint startswith (p s : string) : bool :=
  match p, s with
  | EmptyString, _ => true
  | String a p', String b s' => Ascii.eqb a b && startswith p' s'
  | String _ _, EmptyString => false
  end.

Fixpoint forallb_str (f : ascii -> bool) (s : string) : bool :=
  match s with
  | EmptyString => true
  | String c s' => f c && forallb_str f s'
  end.

(** Truth value of a string: non-empty. *)
Definition nonempty (s : string) : bool :=
  match s with EmptyString => false | _ => true end.

Definition isdigit (s : string) : bool := nonempty s && forallb_str isdigit_char s.

(** [s.partition(ch)]: the text before the first [ch] and the text after
    it, when [ch] occurs. *)
Fixpoint partition (ch : ascii) (s : string) : option (string * string) :=
  match s with
  | EmptyString => None
  | String c s' =>
      if Ascii.eqb c ch then Some (EmptyString, s')
      else match partition ch s' with
           | Some (a, b) => Some (String c a, b)
           | None => None
           end
  end.

Fixpoint join (sep : string) (l : list string) : string :=
  match l with
  | [] => EmptyString
  | [x] => x
  | x :: rest => x ++ sep ++ join sep rest
  end.

(** Exceptions the scripts can meet. *)
Inductive exn := ValueError | IsADirectoryError.

Inductive result (A : Type) : Type :=
  | Ok (a : A)
  | Raise (e : exn).
Arguments Ok {A} a.
Arguments Raise {A} e.

Definition bind {A B} (r : result A) (k : A -> result B) : result B :=
  match r with
  | Ok a => k a
  | Raise e => Raise e
  end.

Fixpoint mapM {A B} (f : A -> result B) (l : list A) : result (list B) :=
  match l with
  | [] => Ok []
  | x :: rest =>
      bind (f x) (fun y => bind (mapM f rest) (fun ys => Ok (y :: ys)))
  end.

Definition digit_val (c : ascii) : Z := Z.of_N (ord c) - 48.

(** Digits of an [int] literal: decimal digits, where single underscores
    may separate two digits.  [acc] is the value read so far and [prev]
    tells whether the previous character was a digit. *)
Fixpoint int_digits (acc : Z) (prev : bool) (s : string) : option Z :=
  match s with
  | EmptyString => if prev then Some acc else None
  | String c s' =>
      if isdecimal_char c then int_digits (10 * acc + digit_val c) true s'
      else if Ascii.eqb c "_" then
        (if prev then
           match s' with
           | String d _ => if isdecimal_char d then int_digits acc false s' else None
           | EmptyString => None
           end
         else None)
      else None
  end.

(** The default of [sys.int_max_str_digits]. *)
Definition max_str_digits : N := 4300.

(** Number of decimal digits of a string. *)
Fixpoint count_decimal (s : string) : N :=
  match s with
  | EmptyString => 0
  | String c s' => if isdecimal_char c then N.succ (count_decimal s') else count_decimal s'
  end.

(** [int(s)] in base ten: surrounding whitespace is dropped, then an
    optional sign, then the digits.  A literal with more digits than
    [max_str_digits] is refused, as one that is ill-formed is. *)
Definition int (s : string) : result Z :=
  let body := strip s in
  let '(sign, ds) :=
    match body with
    | String "-" r => (-1, r)
    | String "+" r => (1, r)
    | _ => (1, body)
    end%Z in
  match int_digits 0 false ds with
  | Some n =>
      if (count_decimal ds <=? max_str_digits)%N then Ok (sign * n)%Z
      else Raise ValueError
  | None => Raise ValueError
  end.

End Py.

Import Py.

(** ** merge_blacklist.py *)

Definition entry : Type := string * string.

(** [split_main_and_comment] *)
Definition split_main_and_comment (line : string) : string * string :=
  match partition "#" line with
  | Some (main, comment) => (strip main, strip comment)
  | None => (strip line, "")
  end.

(** [normalize_entry]: the test for a leading ['@'] is made on the raw
    argument, before it is stripped. *)
Definition normalize_entry (e : string) : string :=
  if startswith "@" e then lower (strip e) else strip e.

(** The loop of [merge_entries] over [old + new], with its [seen] set and
    its [merged] list. *)
Fixpoint merge_loop (seen : gset string) (merged : list entry) (l : list entry)
  : list entry :=
  match l with
  | [] => merged
  | (e_main, e_comment) :: rest =>
      let norm := normalize_entry e_main in
      if decide (norm ∈ seen) then merge_loop seen merged rest
      else
        let main_out := normalize_entry e_main in
        let comment_out := e_comment in
        merge_loop ({[norm]} ∪ seen) (merged ++ [(main_out, comment_out)]) rest
  end.

(** Values of [sort_key]: the tuples [(0, n)] and [(1, s)]. *)
Inductive key :=
  | KNum (n : Z)
  | KStr (s : string).

Definition sort_key (item : entry) : result key :=
  let x := item.1 in
  if isdigit (lstrip_char "-" x) then bind (int x) (fun n => Ok (KNum n))
  else Ok (KStr (lower x)).

(** Tuple comparison [k1 < k2]: first components first; strings compare by
    code point. *)
Definition key_ltb (k1 k2 : key) : bool :=
  match k1, k2 with
  | KNum a, KNum b => (a <? b)%Z
  | KNum _, KStr _ => true
  | KStr _, KNum _ => false
  | KStr a, KStr b => String.ltb a b
  end.

Section Sorted.
Context {A K : Type} (ltb : K -> K -> bool).

(** Insertion below the elements that are not greater: equal keys keep
    their order of arrival. *)
Fixpoint insert_keyed (x : K * A) (l : list (K * A)) : list (K * A) :=
  match l with
  | [] => [x]
  | y :: rest =>
      if ltb y.1 x.1 then y :: insert_keyed x rest else x :: y :: rest
  end.

Definition sort_keyed (l : list (K * A)) : list (K * A) :=
  foldr insert_keyed [] l.

(** A list item with its key in front. *)
Definition decorate (f : A -> result K) (x : A) : result (K * A) :=
  bind (f x) (fun k => Ok (k, x)).

(** [sorted(l, key=f)]: every key is computed first, in order, and any
    exception leaves no result; the sort itself is stable. *)
Definition sorted (f : A -> result K) (l : list A) : result (list A) :=
  bind (mapM (decorate f) l)
       (fun kl => Ok (map snd (sort_keyed kl))).
End Sorted.

Definition merge_entries (old new : list entry) : result (list entry) :=
  let merged := merge_loop ∅ [] (old ++ new) in
  sorted key_ltb sort_key merged.

(** [str.splitlines]: the line boundaries are LF, CR, CRLF, VT, FF,
    FS, GS, RS and NEL; no empty last line is produced. *)
Definition islinebreak (c : ascii) : bool :=
  let n := ord c in
  between 10 13 n || between 28 30 n || (n =? 133)%N.

Fixpoint splitlines (s : string) : list string :=
  match s with
  | EmptyString => []
  | String c s' =>
      if Ascii.eqb c "013" then
        match s' with
        | String "010" s'' => "" :: splitlines s''
        | _ => "" :: splitlines s'
        end
      else if islinebreak c then "" :: splitlines s'
      else match splitlines s' with
           | [] => [String c ""]
           | l :: ls => String c l :: ls
           end
  end.

(** What a path can name: a regular file with its decoded text, or a
    directory. *)
Inductive node :=
  | RegularFile (text : string)
  | Directory.

(** The loop of [read_file]. *)
Fixpoint read_loop (header : list string) (entries : list entry)
    (header_done : bool) (lines : list string) : list string * list entry :=
  match lines with
  | [] => (header, entries)
  | raw :: rest =>
      let s := rstrip raw in
      if negb header_done && (negb (nonempty s) || startswith "#" s) then
        read_loop (header ++ [s]) entries header_done rest
      else
        let '(main, comment) := split_main_and_comment s in
        if negb (nonempty main) then read_loop header entries true rest
        else read_loop header (entries ++ [(main, comment)]) true rest
  end.

Definition read_file (fs : gmap string node) (path : string)
  : result (list string * list entry) :=
  match fs !! path with
  | None => Ok ([], [])
  | Some Directory => Raise IsADirectoryError
  | Some (RegularFile text) => Ok (read_loop [] [] false (splitlines text))
  end.

(** The fields of [datetime.now(timezone.utc)] that the format uses. *)
Record datetime := {
  year : nat;
  month : nat;
  day : nat;
  hour : nat;
  minute : nat
}.

Definition decimal (n : nat) : string := NilEmpty.string_of_uint (Nat.to_uint n).

Fixpoint zeros (n : nat) : string :=
  match n with
  | O => ""
  | S n' => String "0" (zeros n')
  end.

Definition zfill (width : nat) (s : string) : string :=
  zeros (width - String.length s) ++ s.

(** [strftime("%Y-%m-%d %H:%M UTC")] *)
Definition strftime (t : datetime) : string :=
  zfill 4 (decimal (year t)) ++ "-" ++ zfill 2 (decimal (month t)) ++ "-"
  ++ zfill 2 (decimal (day t)) ++ " " ++ zfill 2 (decimal (hour t)) ++ ":"
  ++ zfill 2 (decimal (minute t)) ++ " UTC".

Definition merged_on : string := "# Merged on ".

Definition render_entry (item : entry) : string :=
  let '(main, comment) := item in
  if nonempty comment then main ++ "  # " ++ comment else main.

Definition newline : string := String "010" "".

(** [build_contents], with the clock reading as an argument. *)
Definition build_contents (now : datetime) (header : list string)
    (entries : list entry) : string :=
  let timestamp := strftime now in
  let gen_line := merged_on ++ timestamp in
  let header_filtered := List.filter (fun h => negb (startswith merged_on h)) header in
  let header_out := (header_filtered ++ [gen_line])%list in
  let body := join newline (map render_entry entries) in
  let parts :=
    ((match header_out with [] => [] | _ => [join newline header_out] end)
     ++ (if nonempty body then [body] else []))%list in
  join (newline ++ newline) parts ++ newline.

(** ** validate_blacklist.py *)

Definition isword_char (c : ascii) : bool :=
  let n := ord c in
  between 65 90 n || between 97 122 n || between 48 57 n || (n =? 95)%N.

(** Longest prefix of characters satisfying [f], and the rest. *)
Fixpoint span (f : ascii -> bool) (s : string) : string * string :=
  match s with
  | EmptyString => (EmptyString, EmptyString)
  | String c s' =>
      if f c then let '(a, b) := span f s' in (String c a, b)
      else (EmptyString, s)
  end.

(** Where [$] matches: at the end, or before a final line feed. *)
Definition at_dollar (rest : string) : bool :=
  match rest with
  | EmptyString => true
  | String "010" EmptyString => true
  | _ => false
  end.

(** [USERNAME_RE.match]: [^@[A-Za-z0-9_]{5,32}$].  The repetition is
    greedy and the class excludes the line feed, so a match exists exactly
    when the longest run of class characters has an admissible length and
    [$] matches after it. *)
Definition USERNAME_RE (s : string) : bool :=
  match s with
  | String "@" t =>
      let '(w, rest) := span isword_char t in
      (5 <=? String.length w)%nat && (String.length w <=? 32)%nat && at_dollar rest
  | _ => false
  end.

(** [ID_RE.match]: [^-?\d+$]. *)
Definition ID_RE (s : string) : bool :=
  let t := match s with String "-" r => r | _ => s end in
  let '(w, rest) := span isdecimal_char t in
  nonempty w && at_dollar rest.

Inductive reason := Duplicate | InvalidFormat.

Definition violation : Type := nat * string * reason.

(** [line.split("#", 1)[0]] *)
Definition before_hash (line : string) : string :=
  match partition "#" line with
  | Some (a, _) => a
  | None => line
  end.

(** The loop of [validate]; [i] is the number of the current line. *)
Fixpoint validate_loop (i : nat) (seen : gset string) (errors : list violation)
    (lines : list string) : list violation :=
  match lines with
  | [] => errors
  | raw :: rest =>
      let line := strip raw in
      if negb (nonempty line) || startswith "#" line then
        validate_loop (S i) seen errors rest
      else
        let main_part := strip (before_hash line) in
        if negb (nonempty main_part) then validate_loop (S i) seen errors rest
        else
          let key := lower main_part in
          if decide (key ∈ seen) then
            validate_loop (S i) seen (errors ++ [(i, line, Duplicate)]) rest
          else
            let seen' := {[key]} ∪ seen in
            if USERNAME_RE main_part then validate_loop (S i) seen' errors rest
            else if ID_RE main_part then validate_loop (S i) seen' errors rest
            else validate_loop (S i) seen' (errors ++ [(i, line, InvalidFormat)]) rest
  end.

Definition validate (lines : list string) : list violation :=
  validate_loop 1 ∅ [] lines.

(** ** Vocabulary of the statements *)

(** The main part of a line that [validate] retains: [None] for the lines
    it skips (blank, comment, or empty before the first ['#']). *)
Definition main_part (raw : string) : option string :=
  let line := strip raw in
  if negb (nonempty line) || startswith "#" line then None
  else
    let m := strip (before_hash line) in
    if nonempty m then Some m else None.

(** Keys of the retained lines of a list of lines. *)
Fixpoint keys_of (lines : list string) : gset string :=
  match lines with
  | [] => ∅
  | raw :: rest =>
      match main_part raw with
      | Some m => {[lower m]} ∪ keys_of rest
      | None => keys_of rest
      end
  end.

(** The lines of a text: the pieces between line feeds. *)
Fixpoint split_lf (s : string) : list string :=
  match s with
  | EmptyString => [""]
  | String c s' =>
      if Ascii.eqb c "010" then "" :: split_lf s'
      else match split_lf s' with
           | [] => [String c ""]
           | l :: ls => String c l :: ls
           end
  end.

(** Number of lines of a text that start with the freshness marker. *)
Definition marker_lines (text : string) : nat :=
  List.length (List.filter (startswith merged_on) (split_lf text)).

(** Number of line feeds that end a text. *)
Fixpoint trailing_lf (s : string) : nat :=
  match s with
  | EmptyString => 0
  | String c s' =>
      let n := trailing_lf s' in
      if (n =? String.length s')%nat && Ascii.eqb c "010" then S n else n
  end.

(** A string without line feed. *)
Definition no_lf (s : string) : Prop :=
  forallb_str (fun c => negb (Ascii.eqb c "010")) s = true.

(** The composite key as the specification words it: a value is numeric
    when, after stripping a single leading ['-'], it consists entirely of
    digits. *)
Definition strip_one_dash (x : string) : string :=
  match x with
  | String "-" r => r
  | _ => x
  end.

Definition spec_numeric (x : string) : bool := isdigit (strip_one_dash x).

(** [first_at l v c]: the first entry of [l] whose normalized value is [v]
    carries the comment [c]. *)
Definition first_at (l : list entry) (v c : string) : Prop :=
  exists pre e post,
    l = (pre ++ e :: post)%list /\ normalize_entry e.1 = v /\ e.2 = c /\
    Forall (fun e' => normalize_entry e'.1 <> v) pre.

(** What the loop adds for line [k] of [lines], numbered from [i]. *)
Definition reported (seen : gset string) (lines : list string) (i : nat)
    (v : violation) : Prop :=
  exists k raw m,
    v.1.1 = i + k /\ lines !! k = Some raw /\ v.1.2 = strip raw /\
    main_part raw = Some m /\
    ((v.2 = Duplicate /\ lower m ∈ seen ∪ keys_of (take k lines)) \/
     (v.2 = InvalidFormat /\ (lower m ∉ seen ∪ keys_of (take k lines)) /\
      USERNAME_RE m = false /\ ID_RE m = false)).

(** [key_le k1 k2]: [k2 < k1] does not hold. *)
Definition key_le (k1 k2 : key) : Prop := key_ltb k2 k1 = false.

(** Order of two keyed items: the second is not below the first. *)
Definition keyed_le {A K : Type} (ltb : K -> K -> bool) (p q : K * A) : Prop :=
  ltb q.1 p.1 = false.

Definition rmap {A B} (f : A -> B) (r : result A) : result B :=
  bind r (fun a => Ok (f a)).

(** The sort key of a value; [sort_key] reads nothing else of an entry. *)
Definition value_key (v : string) : result key := sort_key (v, "").

(** The values of a merge result, in order. *)
Definition values (r : result (list entry)) : result (list string) :=
  rmap (map fst) r.

(** The key of a value, with a default where the computation raises. *)
Definition key_or_zero (v : string) : key :=
  match value_key v with
  | Ok k => k
  | Raise _ => KNum 0
  end.

(** An entry as the reader and the merge hand it over: no line feed in
    it, and a non-empty value that does not begin with ['#']. *)
Definition plain_entry (e : entry) : Prop :=
  no_lf e.1 /\ no_lf e.2 /\ e.1 <> "" /\ startswith "#" e.1 = false.

(** The freshness-marker line [build_contents] writes. *)
Definition gen_line (now : datetime) : string := merged_on ++ strftime now.

(** Order of two entries by their sort keys, where both have one. *)
Definition entry_le (e1 e2 : entry) : Prop :=
  exists k1 k2, sort_key e1 = Ok k1 /\ sort_key e2 = Ok k2 /\ key_le k1 k2.

(** A string without any of the line boundaries of [splitlines]. *)
Definition no_break (s : string) : Prop :=
  forallb_str (fun c => negb (islinebreak c)) s = true.

(** A string without ['#']. *)
Definition no_hash (s : string) : Prop :=
  forallb_str (fun c => negb (Ascii.eqb c "#")) s = true.

(** A header line as [read_file] keeps it: stripped on the right, empty or
    starting with ['#'], within one line. *)
Definition header_line (h : string) : Prop :=
  rstrip h = h /\ (h = "" \/ startswith "#" h = true) /\ no_break h.

(** An entry as [read_file] keeps it: a non-empty stripped value without
    ['#'], a stripped comment, both within one line. *)
Definition entry_read (e : entry) : Prop :=
  e.1 <> "" /\ strip e.1 = e.1 /\ no_hash e.1 /\ strip e.2 = e.2 /\
  no_break e.1 /\ no_break e.2.

(** The test of [read_file] for a line that may still belong to the
    header. *)
Definition is_header_raw (raw : string) : bool :=
  let s := rstrip raw in negb (nonempty s) || startswith "#" s.

(** The leading lines that pass the header test, and the lines from the
    first one that fails it. *)
Fixpoint header_run (lines : list string) : list string :=
  match lines with
  | [] => []
  | raw :: rest => if is_header_raw raw then raw :: header_run rest else []
  end.

Fixpoint after_header (lines : list string) : list string :=
  match lines with
  | [] => []
  | raw :: rest => if is_header_raw raw then after_header rest else lines
  end.

(** The entry a body line gives, if any. *)
Definition entry_of_line (raw : string) : option entry :=
  let '(main, comment) := split_main_and_comment (rstrip raw) in
  if nonempty main then Some (main, comment) else None.

(** A value that one of the two grammars of the validator accepts. *)
Definition valid_value (v : string) : Prop :=
  USERNAME_RE v || ID_RE v = true.

(** A target file and a source file, for examples. *)
Definition two_files : gmap string node :=
  <["blacklist.txt" := RegularFile "# my list
123  # spam
"]> (<["upstream.txt" := RegularFile "456
@Annie
"]> ∅).

Definition a_time : datetime :=
  {| year := 2024; month := 3; day := 7; hour := 9; minute := 5 |}.

(** The two grammars of the validator, with their character classes
    written out: [A-Za-z0-9_] and the ten digits. *)
Definition class_chars : string :=
  "ABCDEFGHIJKLMNOPQRSTUVWXYZabcdefghijklmnopqrstuvwxyz0123456789_".

Definition digit_chars : string := "0123456789".

Fixpoint char_in (c : ascii) (set : string) : bool :=
  match set with
  | EmptyString => false
  | String d set' => Ascii.eqb c d || char_in c set'
  end.

(** Every character of [s] is one of [set]. *)
Definition all_in (set s : string) : Prop :=
  forallb_str (fun c => char_in c set) s = true.

(** ['@'] followed by 5 to 32 characters of the class, and nothing else. *)
Definition username_grammar (m : string) : Prop :=
  exists w, m = String "@" w /\ (5 <= String.length w <= 32)%nat /\
            all_in class_chars w.

(** An optional ['-'] followed by one or more digits, and nothing else. *)
Definition integer_grammar (m : string) : Prop :=
  exists d, (m = d \/ m = String "-" d) /\ d <> "" /\ all_in digit_chars d.

(** ** Checks on concrete inputs *)

Example merge_numeric_before_lexical :
  merge_entries [] [("10", ""); ("@zeta", ""); ("2", ""); ("@alpha", "")]
  = Ok [("2", ""); ("10", ""); ("@alpha", ""); ("@zeta", "")].
Proof. vm_compute. reflexivity. Qed.

Example merge_double_dash : merge_entries [] [("--5", "")] = Raise ValueError.
Proof. vm_compute. reflexivity. Qed.

Example validate_case_duplicate :
  validate ["@Foo_bar"; "@foo_bar"] = [(2, "@foo_bar", Duplicate)].
Proof. vm_compute. reflexivity. Qed.

Example splitlines_crlf :
  splitlines (String "a" (String "013" (String "010" (String "010" "b"))))
  = ["a"; ""; "b"].
Proof. reflexivity. Qed.

Example build_contents_roundtrip :
  build_contents {| year := 2024; month := 3; day := 7; hour := 9; minute := 5 |}
    ["# my list"; "# Merged on 2020-01-01 00:00 UTC"] [("123", "spam"); ("456", "")]
  = "# my list" ++ newline ++ "# Merged on 2024-03-07 09:05 UTC" ++ newline
    ++ newline ++ "123  # spam" ++ newline ++ "456" ++ newline.
Proof. vm_compute. reflexivity. Qed.

(** ** The stable sort *)

Section SortedFacts.
Context {A K : Type} (ltb : K -> K -> bool).

Lemma insert_keyed_perm (x : K * A) l : insert_keyed ltb x l ≡ₚ x :: l.
Proof.
  induction l as [|y l IH]; simpl; [done|].
  destruct (ltb y.1 x.1); [|done].
  rewrite IH. apply Permutation_swap.
Qed.

Lemma sort_keyed_perm (l : list (K * A)) : sort_keyed ltb l ≡ₚ l.
Proof.
  induction l as [|x l IH]; simpl; [done|].
  by rewrite insert_keyed_perm, IH.
Qed.

Lemma mapM_decorate_ok (f : A -> result K) l kl :
  mapM (decorate f) l = Ok kl ->
  map snd kl = l /\ Forall (fun p => f p.2 = Ok p.1) kl.
Proof.
  revert kl. induction l as [|x l IH]; simpl; intros kl H.
  - by inversion H.
  - unfold decorate at 1 in H. destruct (f x) as [k|e] eqn:Hk; simpl in H; [|done].
    destruct (mapM (decorate f) l) as [kl'|e] eqn:Hl; simpl in H; [|done].
    inversion H; subst. destruct (IH kl' eq_refl) as [Hm HF].
    simpl. rewrite Hm. split; [done|]. by constructor.
Qed.

Lemma sorted_unfold (f : A -> result K) l :
  sorted ltb f l = bind (mapM (decorate f) l) (fun kl => Ok (map snd (sort_keyed ltb kl))).
Proof. reflexivity. Qed.

Lemma sorted_perm (f : A -> result K) l r : sorted ltb f l = Ok r -> r ≡ₚ l.
Proof.
  rewrite sorted_unfold. destruct (mapM (decorate f) l) as [kl|e] eqn:Hl; simpl; [|done].
  intros [= <-]. apply mapM_decorate_ok in Hl as [<- _].
  by rewrite sort_keyed_perm.
Qed.
End SortedFacts.

(** ** The deduplication loop *)

Lemma first_at_cons_hit e l c : first_at (e :: l) (normalize_entry e.1) c <-> e.2 = c.
Proof.
  split.
  - intros (pre & e' & post & Hl & Hv & Hc & Hpre).
    destruct pre as [|p pre]; simpl in Hl; inversion Hl; subst; [done|].
    by inversion Hpre.
  - intros <-. exists [], e, l. by repeat split.
Qed.

Lemma first_at_cons_miss e l v c :
  normalize_entry e.1 <> v -> first_at (e :: l) v c <-> first_at l v c.
Proof.
  intros Hne. split.
  - intros (pre & e' & post & Hl & Hv & Hc & Hpre).
    destruct pre as [|p pre]; simpl in Hl; inversion Hl; subst; [done|].
    exists pre, e', post. inversion Hpre; subst. by repeat split.
  - intros (pre & e' & post & -> & Hv & Hc & Hpre).
    exists (e :: pre), e', post. repeat split; [done..|]. by constructor.
Qed.

Lemma merge_loop_spec l : forall seen merged v c,
  (v, c) ∈ merge_loop seen merged l <->
  ((v, c) ∈ merged) \/ ((v ∉ seen) /\ first_at l v c).
Proof.
  induction l as [|[m cm] l IH]; intros seen merged v c; simpl.
  - split; [by left|]. intros [H|[_ (pre & e & post & Hl & _)]]; [done|].
    by destruct pre.
  - destruct (decide (normalize_entry m ∈ seen)) as [Hin|Hnin].
    + rewrite IH. split; (intros [H|[Hv Hf]]; [by left|right; split; [done|]]).
      * apply first_at_cons_miss; [|done]. simpl. by intros <-.
      * apply first_at_cons_miss in Hf; [done|]. simpl. by intros <-.
    + rewrite IH, elem_of_app, list_elem_of_singleton.
      destruct (decide (normalize_entry m = v)) as [<-|Hne].
      * change (normalize_entry m) with (normalize_entry (m, cm).1) at 4.
        rewrite first_at_cons_hit. simpl. split.
        -- intros [[H|[= ->]]|[Hv _]]; [by left|by right|set_solver].
        -- intros [H|[_ ->]]; [by left; left|by left; right].
      * rewrite (first_at_cons_miss (m, cm) l v c Hne). split.
        -- intros [[H|[= -> ->]]|[Hv Hf]]; [by left|done|right; split; [set_solver|done]].
        -- intros [H|[Hv Hf]]; [by left; left|right; split; [set_solver|done]].
Qed.

Lemma merge_entries_first_at old new r v c :
  merge_entries old new = Ok r ->
  (v, c) ∈ r <-> first_at (old ++ new) v c.
Proof.
  intros Hr. apply sorted_perm in Hr. rewrite Hr, merge_loop_spec.
  split; [|intros H; right; split; [set_solver|done]].
  intros [H|[_ H]]; [by apply elem_of_nil in H|done].
Qed.

(** ** Properties of the merge *)

(** C5. On a duplicate normalized key the first occurrence wins, for the
    stored value and for the comment: every entry of a merge result is the
    first entry of [old + new] with that normalized value, together with
    its comment; and merging [("123", "spam")] with
    [("123", "other reason")] returns exactly [("123", "spam")]. *)
Theorem merge_entries_first_wins :
  (forall old new r v c,
      merge_entries old new = Ok r -> (v, c) ∈ r -> first_at (old ++ new) v c) /\
  merge_entries [("123", "spam")] [("123", "other reason")] = Ok [("123", "spam")].
Proof.
  split.
  - intros old new r v c Hr Hin. by apply (merge_entries_first_at old new r).
  - vm_compute. reflexivity.
Qed.

Lemma merge_entries_first_wins_witness :
  merge_entries [("@Bob", "x")] [("@bob", "y"); ("7", "z")]
    = Ok [("7", "z"); ("@bob", "x")] /\
  ("@bob", "x") ∈ [("7", "z"); ("@bob", "x")] /\
  first_at ([("@Bob", "x")] ++ [("@bob", "y"); ("7", "z")]) "@bob" "x".
Proof.
  assert (H1 : merge_entries [("@Bob", "x")] [("@bob", "y"); ("7", "z")]
               = Ok [("7", "z"); ("@bob", "x")]) by (vm_compute; reflexivity).
  assert (H2 : ("@bob", "x") ∈ [("7", "z"); ("@bob", "x")])
    by (apply list_elem_of_In; simpl; auto).
  split; [exact H1|]. split; [exact H2|].
  exact (proj1 merge_entries_first_wins _ _ _ _ _ H1 H2).
Defined.

(** C6. Usernames are deduplicated without regard to case and stored
    lowercased: whatever the comments, merging [("@User", c1)] with
    [("@user", c2)] returns the single entry [("@user", c1)]. *)
Theorem merge_entries_username_case (c1 c2 : string) :
  merge_entries [("@User", c1)] [("@user", c2)] = Ok [("@user", c1)].
Proof. vm_compute. reflexivity. Qed.

(** C10. [read_file] on a path that names nothing returns the empty header
    and the empty entry list instead of failing. *)
Theorem read_file_missing (fs : gmap string node) (path : string) :
  fs !! path = None -> read_file fs path = Ok ([], []).
Proof. intros H. unfold read_file. by rewrite H. Qed.

Lemma read_file_missing_witness :
  (<["other.txt" := RegularFile "1"]> ∅ : gmap string node) !! "blacklist.txt" = None /\
  read_file (<["other.txt" := RegularFile "1"]> ∅) "blacklist.txt" = Ok ([], []).
Proof.
  assert (H : (<["other.txt" := RegularFile "1"]> ∅ : gmap string node)
                !! "blacklist.txt" = None) by (vm_compute; reflexivity).
  split; [exact H|]. exact (read_file_missing _ _ H).
Defined.

(** C3. The sort key strips every leading ['-'] before testing for digits
    and then converts the unstripped value: on ["--5"] the test succeeds,
    [int] raises [ValueError], and so does [merge_entries]. *)
Theorem merge_entries_double_dash_raises :
  isdigit (lstrip_char "-" "--5") = true /\
  int "--5" = Raise ValueError /\
  sort_key ("--5", "") = Raise ValueError /\
  merge_entries [] [("--5", "")] = Raise ValueError.
Proof. repeat split; vm_compute; reflexivity. Qed.

(** ** Properties of the validator *)

Lemma validate_loop_cons i seen errors raw rest :
  validate_loop i seen errors (raw :: rest) =
  match main_part raw with
  | None => validate_loop (S i) seen errors rest
  | Some m =>
      if decide (lower m ∈ seen) then
        validate_loop (S i) seen (errors ++ [(i, strip raw, Duplicate)]) rest
      else if USERNAME_RE m || ID_RE m then
        validate_loop (S i) ({[lower m]} ∪ seen) errors rest
      else
        validate_loop (S i) ({[lower m]} ∪ seen)
          (errors ++ [(i, strip raw, InvalidFormat)]) rest
  end.
Proof.
  unfold main_part. cbn [validate_loop]. cbv zeta.
  destruct (negb (nonempty (strip raw)) || startswith "#" (strip raw)); [done|].
  destruct (nonempty (strip (before_hash (strip raw)))); cbn [negb]; [|done].
  destruct (decide _); [done|].
  destruct (USERNAME_RE _); [done|]. by destruct (ID_RE _).
Qed.

Lemma reported_nil seen i v : ~ reported seen [] i v.
Proof. by intros (k & raw & m & _ & H & _). Qed.

Lemma reported_cons seen raw rest i v :
  reported seen (raw :: rest) i v <->
  (exists m, v.1.1 = i /\ v.1.2 = strip raw /\ main_part raw = Some m /\
     ((v.2 = Duplicate /\ lower m ∈ seen) \/
      (v.2 = InvalidFormat /\ (lower m ∉ seen) /\
       USERNAME_RE m = false /\ ID_RE m = false))) \/
  reported (seen ∪ keys_of [raw]) rest (S i) v.
Proof.
  assert (Hk : forall k, seen ∪ keys_of (take (S k) (raw :: rest))
                         = (seen ∪ keys_of [raw]) ∪ keys_of (take k rest)).
  { intros k. simpl. destruct (main_part raw); set_solver. }
  split.
  - intros (k & raw' & m & Hn & Hl & Hs & Hm & Hr). destruct k as [|k].
    + left. simpl in Hl. inversion Hl; subst raw'. exists m.
      rewrite Nat.add_0_r in Hn. simpl in Hr.
      repeat split; [done..|]. destruct Hr as [[? ?]|(? & ? & ?)]; [left|right]; set_solver.
    + right. exists k, raw', m. rewrite Hk in Hr. repeat split; [lia|done..].
  - intros [(m & Hn & Hs & Hm & Hr)|(k & raw' & m & Hn & Hl & Hs & Hm & Hr)].
    + exists 0, raw, m. simpl. repeat split; [lia|done..|].
      destruct Hr as [[? ?]|(? & ? & ?)]; [left|right]; set_solver.
    + exists (S k), raw', m. rewrite Hk. repeat split; [lia|done..].
Qed.

Lemma validate_loop_spec lines : forall i seen errors v,
  v ∈ validate_loop i seen errors lines <-> (v ∈ errors) \/ reported seen lines i v.
Proof.
  induction lines as [|raw rest IH]; intros i seen errors [[n l] r].
  - simpl. split; [by left|]. intros [H|H]; [done|]. by apply reported_nil in H.
  - rewrite validate_loop_cons, reported_cons. simpl.
    destruct (main_part raw) as [m|] eqn:Hm.
    + assert (Hs : seen ∪ ({[lower m]} ∪ ∅) = {[lower m]} ∪ seen) by set_solver.
      rewrite Hs.
      destruct (decide (lower m ∈ seen)) as [Hin|Hnin].
      * assert (Hs' : {[lower m]} ∪ seen = seen) by set_solver. rewrite Hs'.
        rewrite IH, elem_of_app, list_elem_of_singleton. split.
        -- intros [[H|[= -> -> ->]]|H]; [by left| |by right; right].
           right; left. exists m. repeat split; [done..|]. by left.
        -- intros [H|[(m' & -> & -> & [= <-] & [[-> _]|(_ & Hn & _)])|H]];
             [by left; left|by left; right|done|by right].
      * destruct (USERNAME_RE m || ID_RE m) eqn:Hre.
        -- rewrite IH. split.
           ++ intros [H|H]; [by left|by right; right].
           ++ intros [H|[(m' & -> & -> & [= <-] & [[_ Hn]|(_ & _ & Hu & Hi)])|H]];
                [by left|done| |by right].
              rewrite Hu, Hi in Hre. done.
        -- apply orb_false_iff in Hre as [Hu Hi].
           rewrite IH, elem_of_app, list_elem_of_singleton. split.
           ++ intros [[H|[= -> -> ->]]|H]; [by left| |by right; right].
              right; left. exists m. repeat split; [done..|]. by right.
           ++ intros [H|[(m' & -> & -> & [= <-] & [[_ Hn]|(-> & _)])|H]];
                [by left; left|done|by left; right|by right].
    + assert (Hs : seen ∪ ∅ = seen) by set_solver. rewrite Hs, IH. split.
      * intros [H|H]; [by left|by right; right].
      * intros [H|[(m' & _ & _ & [=] & _)|H]]; [by left|by right].
Qed.

Lemma validate_spec lines v : v ∈ validate lines <-> reported ∅ lines 1 v.
Proof.
  unfold validate. rewrite validate_loop_spec. split; [|by right].
  intros [H|H]; [by apply elem_of_nil in H|done].
Qed.

Lemma keys_of_lookup lines k raw m :
  lines !! k = Some raw -> main_part raw = Some m -> lower m ∈ keys_of lines.
Proof.
  revert k. induction lines as [|x rest IH]; intros [|k] Hl Hm; simpl in *; try done.
  - inversion Hl; subst. rewrite Hm. set_solver.
  - specialize (IH k Hl Hm). destruct (main_part x); set_solver.
Qed.

(** C8. A retained line whose key was met on an earlier retained line is
    reported as a duplicate, and a line reported as a duplicate is never
    reported for its format: so it is for ['@Foo'] followed by ['@foo'],
    where the second line matches neither grammar. *)
Theorem validate_duplicate_ends_checks :
  (forall lines j k rawj rawk mj mk,
      j < k -> lines !! j = Some rawj -> lines !! k = Some rawk ->
      main_part rawj = Some mj -> main_part rawk = Some mk ->
      lower mj = lower mk ->
      (S k, strip rawk, Duplicate) ∈ validate lines /\
      forall l, (S k, l, InvalidFormat) ∉ validate lines) /\
  (forall lines n l l',
      (n, l, Duplicate) ∈ validate lines -> (n, l', InvalidFormat) ∉ validate lines) /\
  validate ["@Foo"; "@foo"] = [(1, "@Foo", InvalidFormat); (2, "@foo", Duplicate)] /\
  validate ["@Foo_bar"; "@foo_bar"] = [(2, "@foo_bar", Duplicate)].
Proof.
  split; [|split; [|split; vm_compute; reflexivity]].
  - intros lines j k rawj rawk mj mk Hjk Hj Hk Hmj Hmk Heq.
    assert (Hseen : lower mk ∈ (∅ : gset string) ∪ keys_of (take k lines)).
    { apply elem_of_union_r. rewrite <- Heq.
      apply (keys_of_lookup _ j rawj); [|done].
      rewrite lookup_take_lt; done. }
    split.
    + apply validate_spec. exists k, rawk, mk. simpl. repeat split; [done..|]. by left.
    + intros l Hin. apply validate_spec in Hin.
      destruct Hin as (k' & raw' & m' & Hn & Hl & _ & Hm & Hr). simpl in *.
      assert (k' = k) by lia; subst k'.
      rewrite Hk in Hl; inversion Hl; subst raw'.
      rewrite Hmk in Hm; inversion Hm; subst m'.
      destruct Hr as [[? _]|(_ & Hn' & _)]; done.
  - intros lines n l l' Hd Hi.
    apply validate_spec in Hd as (k & raw & m & Hn & Hl & _ & Hm & Hr).
    apply validate_spec in Hi as (k' & raw' & m' & Hn' & Hl' & _ & Hm' & Hr').
    simpl in *. assert (k' = k) by lia; subst k'.
    rewrite Hl in Hl'; inversion Hl'; subst raw'.
    rewrite Hm in Hm'; inversion Hm'; subst m'.
    destruct Hr as [[_ Hin]|[? _]]; [|done].
    destruct Hr' as [[? _]|(_ & Hnin & _)]; done.
Qed.

Lemma validate_duplicate_ends_checks_witness :
  0 < 1 /\ ["@Foo"; "@foo"] !! 0 = Some "@Foo" /\ ["@Foo"; "@foo"] !! 1 = Some "@foo" /\
  main_part "@Foo" = Some "@Foo" /\ main_part "@foo" = Some "@foo" /\
  lower "@Foo" = lower "@foo" /\
  (2, strip "@foo", Duplicate) ∈ validate ["@Foo"; "@foo"] /\
  forall l, (2, l, InvalidFormat) ∉ validate ["@Foo"; "@foo"].
Proof.
  assert (H0 : 0 < 1) by lia.
  assert (H1 : ["@Foo"; "@foo"] !! 0 = Some "@Foo") by reflexivity.
  assert (H2 : ["@Foo"; "@foo"] !! 1 = Some "@foo") by reflexivity.
  assert (H3 : main_part "@Foo" = Some "@Foo") by reflexivity.
  assert (H4 : main_part "@foo" = Some "@foo") by reflexivity.
  assert (H5 : lower "@Foo" = lower "@foo") by reflexivity.
  repeat (split; [assumption|]).
  exact (proj1 validate_duplicate_ends_checks _ _ _ _ _ _ _ H0 H1 H2 H3 H4 H5).
Defined.

(** *** The username grammar *)

Lemma isword_not_space c : isword_char c = true -> isspace c = false.
Proof. destruct c as [[] [] [] [] [] [] [] []]; vm_compute; congruence. Qed.

Lemma isword_not_hash c : isword_char c = true -> Ascii.eqb c "#" = false.
Proof. destruct c as [[] [] [] [] [] [] [] []]; vm_compute; congruence. Qed.

Lemma rstrip_word w : forallb_str isword_char w = true -> rstrip w = w.
Proof.
  induction w as [|c w IH]; simpl; [done|].
  intros [Hc Hw]%andb_true_iff. rewrite (IH Hw).
  destruct w; [|done]. by rewrite (isword_not_space c Hc).
Qed.

Lemma partition_word w : forallb_str isword_char w = true -> partition "#" w = None.
Proof.
  induction w as [|c w IH]; simpl; [done|].
  intros [Hc Hw]%andb_true_iff. by rewrite (isword_not_hash c Hc), (IH Hw).
Qed.

Lemma span_word w : forallb_str isword_char w = true -> span isword_char w = (w, "").
Proof.
  induction w as [|c w IH]; simpl; [done|].
  intros [Hc Hw]%andb_true_iff. by rewrite Hc, (IH Hw).
Qed.

Lemma strip_at_word w :
  forallb_str isword_char w = true -> strip (String "@" w) = String "@" w.
Proof.
  intros Hw. unfold strip. change (lstrip (String "@" w)) with (String "@" w).
  cbn [rstrip]. rewrite (rstrip_word w Hw). by destruct w.
Qed.

Lemma main_part_at_word w :
  forallb_str isword_char w = true -> main_part (String "@" w) = Some (String "@" w).
Proof.
  intros Hw. unfold main_part. rewrite (strip_at_word w Hw). cbv zeta.
  change (negb (nonempty (String "@" w)) || startswith "#" (String "@" w)) with false.
  cbv iota. unfold before_hash. cbn [partition].
  change (Ascii.eqb "@" "#") with false. cbv iota.
  by rewrite (partition_word w Hw), (strip_at_word w Hw).
Qed.

Lemma validate_lone_username w :
  forallb_str isword_char w = true ->
  validate [String "@" w] =
  if (5 <=? String.length w)%nat && (String.length w <=? 32)%nat then []
  else [(1, String "@" w, InvalidFormat)].
Proof.
  intros Hw. unfold validate.
  rewrite validate_loop_cons, (main_part_at_word w Hw), (strip_at_word w Hw).
  destruct (decide _) as [Hin|_]; [by apply not_elem_of_empty in Hin|].
  assert (Hid : ID_RE (String "@" w) = false) by reflexivity.
  assert (Hu : USERNAME_RE (String "@" w)
               = (5 <=? String.length w)%nat && (String.length w <=? 32)%nat).
  { unfold USERNAME_RE. rewrite (span_word w Hw). simpl. by rewrite andb_true_r. }
  rewrite Hid, Hu, orb_false_r.
  by destruct ((5 <=? String.length w)%nat && (String.length w <=? 32)%nat).
Qed.

(** ** Order on sort keys, and what sorting guarantees *)

Lemma string_compare_le_trans a : forall b c,
  (String.compare a b) <> Gt -> (String.compare b c) <> Gt -> (String.compare a c) <> Gt.
Proof.
  induction a as [|x a IH]; intros [|y b] [|z c]; simpl; try done.
  unfold Ascii.compare.
  destruct (N.compare_spec (N_of_ascii x) (N_of_ascii y)),
           (N.compare_spec (N_of_ascii y) (N_of_ascii z)),
           (N.compare_spec (N_of_ascii x) (N_of_ascii z));
    try lia; try done; eauto.
Qed.

Lemma string_ltb_false a b : String.ltb a b = false <-> (String.compare b a) <> Gt.
Proof.
  unfold String.ltb. rewrite (String.compare_antisym b a).
  destruct (String.compare a b); simpl; split; congruence.
Qed.

Lemma key_ltb_asym k1 k2 : key_ltb k1 k2 = true -> key_ltb k2 k1 = false.
Proof.
  destruct k1 as [a|a], k2 as [b|b]; simpl; try done.
  - intros H. apply Z.ltb_lt in H. apply Z.ltb_ge. lia.
  - unfold String.ltb. rewrite (String.compare_antisym a b).
    by destruct (String.compare b a).
Qed.

Lemma key_le_trans k1 k2 k3 : key_le k1 k2 -> key_le k2 k3 -> key_le k1 k3.
Proof.
  unfold key_le. destruct k1 as [a|a], k2 as [b|b], k3 as [c|c]; simpl; try done.
  - rewrite !Z.ltb_ge. lia.
  - rewrite !string_ltb_false. apply string_compare_le_trans.
Qed.

Lemma key_le_antisym k1 k2 : key_le k1 k2 -> key_le k2 k1 -> k1 = k2.
Proof.
  unfold key_le. destruct k1 as [a|a], k2 as [b|b]; simpl; try done.
  - rewrite !Z.ltb_ge. intros. f_equal. lia.
  - rewrite !string_ltb_false. intros H1 H2. f_equal.
    apply String.compare_eq_iff. rewrite (String.compare_antisym b a) in H2.
    destruct (String.compare a b); simpl in *; congruence.
Qed.

Section StableSort.
Context {A K : Type} (ltb : K -> K -> bool).
Hypothesis ltb_asym : forall x y, ltb x y = true -> ltb y x = false.
Hypothesis le_trans :
  forall x y z, ltb y x = false -> ltb z y = false -> ltb z x = false.

Lemma insert_keyed_hd x y (l : list (K * A)) :
  (keyed_le ltb) y x -> HdRel (keyed_le ltb) y l -> HdRel (keyed_le ltb) y (insert_keyed ltb x l).
Proof.
  intros Hyx Hl. destruct l as [|z l]; simpl; [by constructor|].
  inversion Hl; subst. destruct (ltb z.1 x.1); by constructor.
Qed.

Lemma insert_keyed_sorted x (l : list (K * A)) :
  Sorted (keyed_le ltb) l -> Sorted (keyed_le ltb) (insert_keyed ltb x l).
Proof.
  induction l as [|y l IH]; simpl; intros Hl.
  - by repeat constructor.
  - inversion Hl; subst. destruct (ltb y.1 x.1) eqn:Hyx.
    + constructor; [by apply IH|]. apply insert_keyed_hd; [|done].
      by apply ltb_asym.
    + constructor; [done|]. by constructor.
Qed.

Lemma sort_keyed_sorted (l : list (K * A)) : Sorted (keyed_le ltb) (sort_keyed ltb l).
Proof.
  induction l as [|x l IH]; simpl; [constructor|]. by apply insert_keyed_sorted.
Qed.

Lemma sort_keyed_strongly_sorted (l : list (K * A)) :
  StronglySorted (keyed_le ltb) (sort_keyed ltb l).
Proof.
  apply Sorted.Sorted_StronglySorted; [|apply sort_keyed_sorted].
  intros p q r Hpq Hqr. unfold keyed_le in *. by eapply le_trans.
Qed.
End StableSort.

(** Sorting carries the payload along. *)
Lemma insert_keyed_map {A B K} (ltb : K -> K -> bool) (h : A -> B) x l :
  insert_keyed ltb (prod_map id h x) (map (prod_map id h) l)
  = map (prod_map id h) (insert_keyed ltb x l).
Proof.
  induction l as [|y l IH]; simpl; [done|].
  destruct (ltb y.1 x.1); simpl; [by rewrite IH|done].
Qed.

Lemma sort_keyed_map {A B K} (ltb : K -> K -> bool) (h : A -> B) l :
  sort_keyed ltb (map (prod_map id h) l) = map (prod_map id h) (sort_keyed ltb l).
Proof.
  induction l as [|x l IH]; [done|].
  change (insert_keyed ltb (prod_map id h x) (sort_keyed ltb (map (prod_map id h) l))
          = map (prod_map id h) (insert_keyed ltb x (sort_keyed ltb l))).
  by rewrite IH, insert_keyed_map.
Qed.

Lemma mapM_decorate_map {A B K} (g : B -> result K) (h : A -> B) l :
  mapM (decorate g) (map h l)
  = rmap (map (prod_map id h)) (mapM (decorate (fun x => g (h x))) l).
Proof.
  induction l as [|x l IH]; simpl; [done|]. rewrite IH. unfold decorate at 1 3.
  destruct (g (h x)); simpl; [|done].
  by destruct (mapM (decorate (fun x => g (h x))) l).
Qed.

Lemma sorted_map {A B K} (ltb : K -> K -> bool) (g : B -> result K) (h : A -> B) l :
  sorted ltb g (map h l) = rmap (map h) (sorted ltb (fun x => g (h x)) l).
Proof.
  rewrite !sorted_unfold, mapM_decorate_map.
  destruct (mapM (decorate (fun x => g (h x))) l) as [kl|e]; simpl; [|done].
  rewrite sort_keyed_map. f_equal.
  rewrite !map_map. by apply map_ext; intros [k a].
Qed.

(** ** Values kept by the deduplication loop *)

Lemma map_fmap {A B} (f : A -> B) (l : list A) : map f l = f <$> l.
Proof. reflexivity. Qed.

Lemma merge_loop_values_nodup l : forall seen merged,
  NoDup (map fst merged) ->
  (forall v, v ∈ map fst merged -> v ∈ seen) ->
  NoDup (map fst (merge_loop seen merged l)).
Proof.
  induction l as [|[m c] l IH]; intros seen merged Hnd Hseen; simpl; [done|].
  destruct (decide (normalize_entry m ∈ seen)) as [Hin|Hnin]; [by apply IH|].
  apply IH.
  - rewrite map_app. apply NoDup_app. split; [done|]. split; [|apply NoDup_singleton].
    intros v Hv Hv'. simpl in Hv'. apply list_elem_of_singleton in Hv'. subst v.
    by apply Hseen in Hv.
  - intros v. rewrite map_app, elem_of_app. simpl. rewrite list_elem_of_singleton.
    intros [Hv| ->]; [apply elem_of_union_r; by apply Hseen|].
    apply elem_of_union_l. by apply elem_of_singleton.
Qed.

Lemma first_at_exists l v :
  v ∈ map (fun e : entry => normalize_entry e.1) l <-> exists c, first_at l v c.
Proof.
  split.
  - induction l as [|e l IH]; simpl; intros Hin; [by apply elem_of_nil in Hin|].
    destruct (decide (normalize_entry e.1 = v)) as [<-|Hne].
    + exists e.2. by apply first_at_cons_hit.
    + apply elem_of_cons in Hin as [->|Hin]; [done|].
      destruct (IH Hin) as [c Hc]. exists c. by apply first_at_cons_miss.
  - intros (c & pre & e & post & -> & <- & _ & _).
    rewrite map_app. apply elem_of_app. right. simpl. apply elem_of_cons. by left.
Qed.

Lemma merge_loop_values l v :
  v ∈ map fst (merge_loop ∅ [] l) <-> v ∈ map (fun e : entry => normalize_entry e.1) l.
Proof.
  rewrite first_at_exists, map_fmap, list_elem_of_fmap. split.
  - intros ([v' c] & -> & Hin). exists c. apply merge_loop_spec in Hin.
    destruct Hin as [Hin|[_ Hf]]; [by apply elem_of_nil in Hin|done].
  - intros [c Hf]. exists (v, c). split; [done|].
    apply merge_loop_spec. right. split; [apply not_elem_of_empty|done].
Qed.

Lemma merge_loop_values_perm l1 l2 :
  l1 ≡ₚ l2 -> map fst (merge_loop ∅ [] l1) ≡ₚ map fst (merge_loop ∅ [] l2).
Proof.
  intros Hp. apply NoDup_Permutation.
  - apply merge_loop_values_nodup; [constructor|]. intros v Hv. by apply elem_of_nil in Hv.
  - apply merge_loop_values_nodup; [constructor|]. intros v Hv. by apply elem_of_nil in Hv.
  - intros v. rewrite !merge_loop_values, !map_fmap. by rewrite Hp.
Qed.

(** The merged values are pairwise different. *)
Lemma merge_entries_values_nodup old new r :
  merge_entries old new = Ok r -> NoDup (map fst r).
Proof.
  intros Hr. apply sorted_perm in Hr. rewrite map_fmap, Hr, <- map_fmap.
  apply merge_loop_values_nodup; [constructor|]. intros v Hv. by apply elem_of_nil in Hv.
Qed.

(** ** Exceptions of the key computation *)

Lemma int_raises s e : int s = Raise e -> e = ValueError.
Proof.
  unfold int.
  match goal with
  | |- context [match ?M with (_, _) => _ end] => destruct M as [sign ds]
  end.
  destruct (int_digits 0 false ds); [|congruence].
  destruct (count_decimal ds <=? max_str_digits)%N; congruence.
Qed.

Lemma sort_key_raises item e : sort_key item = Raise e -> e = ValueError.
Proof.
  unfold sort_key. destruct (isdigit _); [|done].
  destruct (int item.1) as [n|e'] eqn:Hi; simpl; [done|].
  intros [= <-]. by apply int_raises in Hi.
Qed.

Lemma mapM_ok_all {A B} (f : A -> result B) l ys :
  mapM f l = Ok ys -> Forall (fun x => exists y, f x = Ok y) l.
Proof.
  revert ys. induction l as [|x l IH]; simpl; intros ys H; [constructor|].
  destruct (f x) as [y|e] eqn:Hx; simpl in H; [|done].
  destruct (mapM f l) as [ys'|e] eqn:Hl; simpl in H; [|done].
  constructor; [by exists y|]. by apply (IH ys').
Qed.

Lemma mapM_all_ok {A B} (f : A -> result B) l :
  Forall (fun x => exists y, f x = Ok y) l -> exists ys, mapM f l = Ok ys.
Proof.
  induction 1 as [|x l [y Hy] _ [ys IH]]; simpl; [by exists []|].
  rewrite Hy, IH. simpl. by exists (y :: ys).
Qed.

Lemma mapM_raises {A B} (f : A -> result B) l e :
  mapM f l = Raise e -> exists x, x ∈ l /\ f x = Raise e.
Proof.
  induction l as [|x l IH]; simpl; [done|].
  destruct (f x) as [y|e'] eqn:Hx; simpl.
  - destruct (mapM f l) as [ys|e'] eqn:Hl; simpl; [done|].
    intros [= ->]. destruct (IH eq_refl) as (x' & Hin & Hx').
    exists x'. split; [by apply elem_of_cons; right|done].
  - intros [= ->]. exists x. split; [by apply elem_of_cons; left|done].
Qed.

(** ** Merging permuted inputs *)

Lemma values_merge_entries old new :
  values (merge_entries old new)
  = sorted key_ltb value_key (map fst (merge_loop ∅ [] (old ++ new))).
Proof.
  unfold values, merge_entries. rewrite sorted_map. reflexivity.
Qed.

Lemma mapM_decorate_total l kl :
  mapM (decorate value_key) l = Ok kl -> kl = map (fun v => (key_or_zero v, v)) l.
Proof.
  intros H. apply mapM_decorate_ok in H as [<- HF].
  induction HF as [|[k v] kl Hk _ IH]; simpl; [done|].
  simpl in Hk. unfold key_or_zero at 1. rewrite Hk. by rewrite <- IH.
Qed.

Lemma sorted_values_perm vs1 vs2 :
  vs1 ≡ₚ vs2 ->
  (forall v1 v2 k, v1 ∈ vs1 -> v2 ∈ vs1 ->
      value_key v1 = Ok k -> value_key v2 = Ok k -> v1 = v2) ->
  sorted key_ltb value_key vs1 = sorted key_ltb value_key vs2.
Proof.
  intros Hp Hinj. rewrite !sorted_unfold.
  destruct (mapM (decorate value_key) vs1) as [k1|e1] eqn:H1,
           (mapM (decorate value_key) vs2) as [k2|e2] eqn:H2; simpl.
  - f_equal. f_equal.
    pose proof (mapM_decorate_ok _ _ _ H1) as [Hs1 HF1].
    pose proof (mapM_decorate_ok _ _ _ H2) as [Hs2 HF2].
    apply mapM_decorate_total in H1, H2.
    apply (StronglySorted_unique_strong (keyed_le key_ltb)).
    + intros [ka va] [kb vb] Ha Hb Hab Hba.
      rewrite sort_keyed_perm in Ha, Hb.
      rewrite Forall_forall in HF1, HF2.
      pose proof (HF1 _ Ha) as Hka. pose proof (HF2 _ Hb) as Hkb. simpl in *.
      assert (ka = kb) by (by apply key_le_antisym). subst kb.
      f_equal. apply (Hinj va vb ka); [| |done..].
      * rewrite <- Hs1. rewrite map_fmap. apply list_elem_of_fmap. by exists (ka, va).
      * rewrite Hp, <- Hs2. rewrite map_fmap. apply list_elem_of_fmap. by exists (ka, vb).
    + apply sort_keyed_strongly_sorted; [apply key_ltb_asym|].
      intros x y z Hxy Hyz. by apply (key_le_trans x y z).
    + apply sort_keyed_strongly_sorted; [apply key_ltb_asym|].
      intros x y z Hxy Hyz. by apply (key_le_trans x y z).
    + rewrite !sort_keyed_perm, H1, H2, !map_fmap. by rewrite Hp.
  - exfalso. apply mapM_raises in H2 as (x & Hx & Hr).
    apply mapM_ok_all in H1. rewrite Forall_forall in H1.
    rewrite <- Hp in Hx. destruct (H1 x Hx) as [y Hy]. congruence.
  - exfalso. apply mapM_raises in H1 as (x & Hx & Hr).
    apply mapM_ok_all in H2. rewrite Forall_forall in H2.
    rewrite Hp in Hx. destruct (H2 x Hx) as [y Hy]. congruence.
  - apply mapM_raises in H1 as (x1 & _ & Hr1). apply mapM_raises in H2 as (x2 & _ & Hr2).
    unfold decorate in Hr1, Hr2.
    destruct (value_key x1) as [|e1'] eqn:Hk1; simpl in Hr1; [done|].
    destruct (value_key x2) as [|e2'] eqn:Hk2; simpl in Hr2; [done|].
    apply sort_key_raises in Hk1, Hk2. congruence.
Qed.

(** ** Properties of the merge, continued *)

(** C4, as the code has it.  When the two inputs are permutations of each
    other and entries with different normalized values never share a sort
    key, both merges fail or both return, and they return the same
    sequence of values. *)
Theorem merge_entries_permutation (old1 new1 old2 new2 : list entry) :
  (old1 ++ new1)%list ≡ₚ (old2 ++ new2)%list ->
  (forall e1 e2 k, e1 ∈ (old1 ++ new1)%list -> e2 ∈ (old1 ++ new1)%list ->
      sort_key (normalize_entry e1.1, e1.2) = Ok k ->
      sort_key (normalize_entry e2.1, e2.2) = Ok k ->
      normalize_entry e1.1 = normalize_entry e2.1) ->
  values (merge_entries old1 new1) = values (merge_entries old2 new2).
Proof.
  intros Hp Hinj. rewrite !values_merge_entries.
  apply sorted_values_perm; [by apply merge_loop_values_perm|].
  intros v1 v2 k Hv1 Hv2 Hk1 Hk2.
  apply merge_loop_values in Hv1, Hv2. rewrite map_fmap in Hv1, Hv2.
  apply list_elem_of_fmap in Hv1 as (e1 & -> & He1).
  apply list_elem_of_fmap in Hv2 as (e2 & -> & He2).
  by apply (Hinj e1 e2 k).
Qed.

(** C4 fails as stated: ["7"] and ["07"] are different values with the
    same sort key, and the stable sort leaves them in their input order. *)
Lemma merge_entries_position_matters :
  ([("7", ""); ("07", "")] ++ [])%list ≡ₚ ([("07", ""); ("7", "")] ++ [])%list /\
  values (merge_entries [("7", ""); ("07", "")] []) = Ok ["7"; "07"] /\
  values (merge_entries [("07", ""); ("7", "")] []) = Ok ["07"; "7"] /\
  values (merge_entries [("7", ""); ("07", "")] [])
    <> values (merge_entries [("07", ""); ("7", "")] []).
Proof.
  split; [apply Permutation_swap|].
  split; [vm_compute; reflexivity|].
  split; [vm_compute; reflexivity|].
  vm_compute. discriminate.
Qed.

(** ** Normalization of values without leading whitespace *)

Lemma isspace_lower_char c : isspace (lower_char c) = isspace c.
Proof. destruct c as [[] [] [] [] [] [] [] []]; vm_compute; reflexivity. Qed.

Lemma lower_char_idem c : lower_char (lower_char c) = lower_char c.
Proof. destruct c as [[] [] [] [] [] [] [] []]; vm_compute; reflexivity. Qed.

Lemma lower_idem s : lower (lower s) = lower s.
Proof. induction s as [|c s IH]; simpl; [done|]. by rewrite lower_char_idem, IH. Qed.

Lemma lstrip_lower s : lstrip (lower s) = lower (lstrip s).
Proof.
  induction s as [|c s IH]; simpl; [done|].
  rewrite isspace_lower_char. by destruct (isspace c).
Qed.

Lemma rstrip_lower s : rstrip (lower s) = lower (rstrip s).
Proof.
  induction s as [|c s IH]; simpl; [done|].
  rewrite IH, isspace_lower_char.
  destruct (rstrip s); simpl; [|done]. by destruct (isspace c).
Qed.

Lemma strip_lower s : strip (lower s) = lower (strip s).
Proof. unfold strip. by rewrite lstrip_lower, rstrip_lower. Qed.

Lemma rstrip_idem s : rstrip (rstrip s) = rstrip s.
Proof.
  induction s as [|c s IH]; simpl; [done|].
  destruct (rstrip s) as [|d r] eqn:Hr.
  - destruct (isspace c) eqn:Hc; simpl; [done|]. by rewrite Hc.
  - change (rstrip (String c (String d r))) with
      (match rstrip (String d r) with
       | EmptyString => if isspace c then EmptyString else String c EmptyString
       | r' => String c r'
       end).
    by rewrite IH.
Qed.

Lemma lstrip_length s : String.length (lstrip s) <= String.length s.
Proof.
  induction s as [|c s IH]; simpl; [lia|]. destruct (isspace c); simpl; lia.
Qed.

Lemma lstrip_fixed_head c s : lstrip (String c s) = String c s -> isspace c = false.
Proof.
  simpl. destruct (isspace c); [|done]. intros H.
  pose proof (lstrip_length s) as Hl. rewrite H in Hl. simpl in Hl. lia.
Qed.

Lemma lstrip_idem s : lstrip (lstrip s) = lstrip s.
Proof.
  induction s as [|c s IH]; simpl; [done|].
  destruct (isspace c) eqn:Hc; [done|]. simpl. by rewrite Hc.
Qed.

Lemma rstrip_head c s :
  isspace c = false -> exists r, rstrip (String c s) = String c r.
Proof.
  intros Hc. simpl. rewrite Hc. destruct (rstrip s); eauto.
Qed.

(** Stripping the right end keeps a left end that is already stripped. *)
Lemma lstrip_rstrip s : lstrip s = s -> lstrip (rstrip s) = rstrip s.
Proof.
  destruct s as [|c s]; [done|]. intros Hc%lstrip_fixed_head.
  destruct (rstrip_head c s Hc) as [r ->]. simpl. by rewrite Hc.
Qed.

Lemma strip_idem s : strip (strip s) = strip s.
Proof.
  unfold strip. rewrite (lstrip_rstrip (lstrip s)) by apply lstrip_idem.
  apply rstrip_idem.
Qed.

Lemma startswith_at_strip s :
  lstrip s = s -> startswith "@" (strip s) = startswith "@" s.
Proof.
  intros Hs. unfold strip. rewrite Hs. destruct s as [|c s]; [done|].
  apply lstrip_fixed_head in Hs. by destruct (rstrip_head c s Hs) as [r ->].
Qed.

Lemma startswith_at_lower s : startswith "@" (lower s) = startswith "@" s.
Proof.
  destruct s as [|c s]; [done|]. simpl.
  destruct c as [[] [] [] [] [] [] [] []]; reflexivity.
Qed.

Lemma normalize_entry_idem s :
  lstrip s = s -> normalize_entry (normalize_entry s) = normalize_entry s.
Proof.
  intros Hs. unfold normalize_entry at 2 3.
  destruct (startswith "@" s) eqn:Hat; unfold normalize_entry.
  - rewrite startswith_at_lower, (startswith_at_strip s Hs), Hat.
    by rewrite strip_lower, strip_idem, lower_idem.
  - rewrite (startswith_at_strip s Hs), Hat. apply strip_idem.
Qed.

(** C1, as the code has it.  When no value of the inputs begins with
    whitespace, the list returned by [merge_entries] holds no two entries
    whose values have the same normalized key. *)
Theorem merge_entries_no_duplicate_key (old new r : list entry) :
  (forall e, e ∈ (old ++ new)%list -> lstrip e.1 = e.1) ->
  merge_entries old new = Ok r ->
  NoDup (map (fun e : entry => normalize_entry e.1) r).
Proof.
  intros Htrim Hr.
  assert (Hid : map (fun e : entry => normalize_entry e.1) r = map fst r).
  { apply map_ext_in. intros [v c] Hin%list_elem_of_In. simpl.
    apply (merge_entries_first_at old new r v c Hr) in Hin.
    destruct Hin as (pre & e & post & Hl & <- & _ & _).
    apply normalize_entry_idem, Htrim. rewrite Hl.
    apply elem_of_app. right. by apply elem_of_cons; left. }
  rewrite Hid. by apply (merge_entries_values_nodup old new).
Qed.

Lemma merge_entries_no_duplicate_key_witness :
  merge_entries [("@User", ""); ("12", "spam")] [("@user", "x")]
    = Ok [("12", "spam"); ("@user", "")] /\
  NoDup (map (fun e : entry => normalize_entry e.1) [("12", "spam"); ("@user", "")]).
Proof.
  assert (H : merge_entries [("@User", ""); ("12", "spam")] [("@user", "x")]
              = Ok [("12", "spam"); ("@user", "")]) by (vm_compute; reflexivity).
  split; [exact H|].
  apply (merge_entries_no_duplicate_key _ _ _) in H; [exact H|].
  intros e He. apply list_elem_of_In in He. simpl in He.
  destruct He as [<-|[<-|[<-|[]]]]; reflexivity.
Defined.

(** C1 fails as stated: [" @User"] does not start with ['@'], so it is
    stripped but not lowercased, and the later ["@user"] is kept beside it
    although both stored values have the normalized key ["@user"]. *)
Lemma merge_entries_duplicate_key_after_space :
  merge_entries [(" @User", "")] [("@user", "")] = Ok [("@User", ""); ("@user", "")] /\
  normalize_entry "@User" = normalize_entry "@user" /\
  ~ NoDup (map (fun e : entry => normalize_entry e.1) [("@User", ""); ("@user", "")]).
Proof.
  split; [vm_compute; reflexivity|]. split; [reflexivity|].
  intros H. apply NoDup_cons in H as [Hnin _]. apply Hnin.
  apply elem_of_cons. by left.
Qed.

(** ** Lines of the rendered text *)

Lemma append_cons x (a b : string) : String x a ++ b = String x (a ++ b).
Proof. reflexivity. Qed.

Lemma append_assoc (a b c : string) : (a ++ b) ++ c = a ++ (b ++ c).
Proof.
  induction a as [|x a IH]; [done|]. rewrite !append_cons. by rewrite IH.
Qed.

Lemma append_nil_r (a : string) : a ++ "" = a.
Proof. induction a as [|x a IH]; [done|]. rewrite append_cons. by rewrite IH. Qed.

Lemma length_append (a b : string) :
  String.length (a ++ b) = String.length a + String.length b.
Proof.
  induction a as [|x a IH]; [done|]. rewrite append_cons. simpl. by rewrite IH.
Qed.

Lemma no_lf_append a b : no_lf (a ++ b) <-> no_lf a /\ no_lf b.
Proof.
  unfold no_lf. induction a as [|x a IH]; [naive_solver|].
  rewrite append_cons. simpl. rewrite !andb_true_iff, IH. naive_solver.
Qed.

Lemma split_lf_not_nil s : split_lf s <> [].
Proof.
  destruct s as [|c s]; simpl; [done|].
  destruct (Ascii.eqb c "010"); [done|]. by destruct (split_lf s).
Qed.

Lemma split_lf_no_lf s : no_lf s -> split_lf s = [s].
Proof.
  unfold no_lf. induction s as [|c s IH]; simpl; [done|].
  intros [Hc Hs]%andb_true_iff. destruct (Ascii.eqb c "010"); [done|].
  by rewrite (IH Hs).
Qed.

(** A line feed between two texts separates their lines. *)
Lemma split_lf_append a b :
  split_lf (a ++ newline ++ b) = (split_lf a ++ split_lf b)%list.
Proof.
  induction a as [|c a IH]; [done|].
  change (String c a ++ newline ++ b) with (String c (a ++ newline ++ b)).
  cbn [split_lf]. rewrite IH. destruct (Ascii.eqb c "010"); [done|].
  pose proof (split_lf_not_nil a). by destruct (split_lf a).
Qed.

Lemma split_lf_join ls :
  ls <> [] -> Forall no_lf ls -> split_lf (join newline ls) = ls.
Proof.
  intros Hne HF. induction HF as [|x ls Hx HF IH]; [done|].
  destruct ls as [|y ls]; [by apply split_lf_no_lf|].
  change (join newline (x :: y :: ls)) with (x ++ newline ++ join newline (y :: ls)).
  rewrite split_lf_append, (split_lf_no_lf x Hx), IH; done.
Qed.

Lemma join_snoc sep ls z :
  ls <> [] -> join sep (ls ++ [z]) = join sep ls ++ sep ++ z.
Proof.
  induction ls as [|x ls IH]; [done|]. intros _.
  destruct ls as [|y ls]; [done|].
  change (join sep ((x :: y :: ls) ++ [z])) with (x ++ sep ++ join sep ((y :: ls) ++ [z])).
  rewrite IH by done.
  change (join sep (x :: y :: ls)) with (x ++ sep ++ join sep (y :: ls)).
  by rewrite !append_assoc.
Qed.

(** A text ends as its last non-empty part does. *)
Lemma join_ends sep ls z : exists p, join sep (ls ++ [z]) = p ++ z.
Proof.
  destruct ls as [|x ls]; [by exists ""|].
  exists (join sep (x :: ls) ++ sep). rewrite join_snoc by done.
  by rewrite append_assoc.
Qed.

Lemma trailing_lf_le s : trailing_lf s <= String.length s.
Proof.
  induction s as [|c s IH]; simpl; [lia|].
  destruct ((trailing_lf s =? String.length s)%nat && Ascii.eqb c "010"); lia.
Qed.

Lemma trailing_lf_append a b :
  trailing_lf (a ++ b) =
  if (trailing_lf b =? String.length b)%nat then trailing_lf a + String.length b
  else trailing_lf b.
Proof.
  induction a as [|c a IH]; simpl.
  - by destruct (Nat.eqb_spec (trailing_lf b) (String.length b)).
  - rewrite IH, length_append.
    pose proof (trailing_lf_le a).
    destruct (Nat.eqb_spec (trailing_lf b) (String.length b)) as [Hb|Hb].
    + destruct (Nat.eqb_spec (trailing_lf a) (String.length a)) as [Ha|Ha].
      * rewrite Ha, Nat.eqb_refl. simpl. by destruct (Ascii.eqb c "010").
      * destruct (Nat.eqb_spec (trailing_lf a + String.length b)
                    (String.length a + String.length b)); [lia|done].
    + pose proof (trailing_lf_le b).
      destruct (Nat.eqb_spec (trailing_lf b) (String.length a + String.length b));
        [lia|done].
Qed.

Lemma trailing_lf_no_lf s : no_lf s -> trailing_lf s = 0.
Proof.
  unfold no_lf. induction s as [|c s IH]; simpl; [done|].
  intros [Hc Hs]%andb_true_iff. rewrite (IH Hs).
  apply negb_true_iff in Hc. rewrite Hc. by rewrite andb_false_r.
Qed.

(** A text that ends with a non-empty part free of line feeds, followed by
    one line feed, ends with exactly one. *)
Lemma trailing_lf_one p z :
  no_lf z -> z <> "" -> trailing_lf ((p ++ z) ++ newline) = 1.
Proof.
  intros Hz Hne. rewrite trailing_lf_append. simpl.
  rewrite trailing_lf_append, (trailing_lf_no_lf z Hz).
  destruct z as [|c z]; [done|]. reflexivity.
Qed.

(** ** The rendered text *)

Lemma no_lf_string_of_uint d : no_lf (NilEmpty.string_of_uint d).
Proof.
  unfold no_lf. induction d; simpl; done.
Qed.

Lemma no_lf_zfill w s : no_lf s -> no_lf (zfill w s).
Proof.
  intros Hs. unfold zfill. apply no_lf_append. split; [|done].
  unfold no_lf. induction (w - String.length s) as [|n IH]; simpl; done.
Qed.

Lemma no_lf_strftime t : no_lf (strftime t).
Proof.
  unfold strftime.
  repeat (apply no_lf_append; split;
          [first [apply no_lf_zfill, no_lf_string_of_uint | reflexivity]|]).
  reflexivity.
Qed.

Lemma startswith_append p s : startswith p (p ++ s) = true.
Proof.
  induction p as [|c p IH]; [done|]. rewrite append_cons. simpl.
  by rewrite Ascii.eqb_refl, IH.
Qed.

Section Rendering.
Variable now : datetime.

Lemma gen_line_no_lf : no_lf (gen_line now).
Proof. apply no_lf_append. split; [reflexivity|apply no_lf_strftime]. Qed.

Lemma gen_line_marker : startswith merged_on (gen_line now) = true.
Proof. apply startswith_append. Qed.

Lemma gen_line_nonempty : gen_line now <> "".
Proof. done. Qed.

Lemma startswith_marker_head x s :
  Ascii.eqb "#" x = false -> startswith merged_on (String x s) = false.
Proof. intros H. unfold merged_on. cbn [startswith]. by rewrite H. Qed.

Lemma render_entry_plain e :
  plain_entry e ->
  no_lf (render_entry e) /\ render_entry e <> "" /\
  startswith merged_on (render_entry e) = false.
Proof.
  destruct e as [m c]. intros (Hm & Hc & Hne & Hh). cbn [fst snd] in *.
  destruct m as [|x m]; [done|].
  assert (Hx : Ascii.eqb "#" x = false).
  { cbn [startswith] in Hh. by rewrite andb_true_r in Hh. }
  unfold render_entry. destruct (nonempty c).
  - rewrite append_cons. repeat split; [|done|by apply startswith_marker_head].
    rewrite <- append_cons. apply no_lf_append. split; [done|].
    apply no_lf_append. by split.
  - repeat split; [done..|]. by apply startswith_marker_head.
Qed.

Lemma filter_marker_filtered header :
  List.filter (startswith merged_on)
    (List.filter (fun h => negb (startswith merged_on h)) header) = [].
Proof.
  induction header as [|h header IH]; [done|]. cbn [List.filter].
  destruct (startswith merged_on h) eqn:Hh; cbn [negb List.filter]; [done|].
  by rewrite Hh.
Qed.

Lemma filter_marker_rendered entries :
  Forall plain_entry entries ->
  List.filter (startswith merged_on) (map render_entry entries) = [].
Proof.
  induction 1 as [|e entries He _ IH]; [done|]. cbn [map List.filter].
  destruct (render_entry_plain e He) as (_ & _ & ->). done.
Qed.

Lemma Forall_no_lf_filter (f : string -> bool) header :
  Forall no_lf header -> Forall no_lf (List.filter f header).
Proof.
  induction 1 as [|h header Hh _ IH]; [constructor|]. cbn [List.filter].
  destruct (f h); [by constructor|done].
Qed.

Lemma Forall_no_lf_rendered entries :
  Forall plain_entry entries -> Forall no_lf (map render_entry entries).
Proof.
  induction 1 as [|e entries He _ IH]; cbn [map]; constructor; [|done].
  by destruct (render_entry_plain e He).
Qed.

(** The two shapes of the text. *)
Lemma build_contents_unfold header entries :
  let header_out :=
    (List.filter (fun h => negb (startswith merged_on h)) header ++ [gen_line now])%list in
  let body := join newline (map render_entry entries) in
  build_contents now header entries =
  if nonempty body then
    (join newline header_out ++ (newline ++ newline) ++ body) ++ newline
  else join newline header_out ++ newline.
Proof.
  intros header_out body. unfold build_contents. fold (gen_line now). cbv zeta.
  fold header_out. fold body.
  assert (Hne : header_out <> []) by (unfold header_out; by destruct (List.filter _ header)).
  destruct header_out as [|h hs] eqn:Hh; [done|].
  by destruct (nonempty body).
Qed.

(** C7, as the code has it.  When header lines, values and comments hold
    no line feed and every value is non-empty and does not begin with
    ['#'], the text has exactly one line starting with the marker and
    ends with exactly one line feed. *)
Theorem build_contents_one_marker header entries :
  Forall no_lf header ->
  Forall plain_entry entries ->
  marker_lines (build_contents now header entries) = 1 /\
  trailing_lf (build_contents now header entries) = 1.
Proof.
  intros Hh He. rewrite build_contents_unfold.
  set (hf := List.filter (fun h => negb (startswith merged_on h)) header).
  set (rendered := map render_entry entries).
  assert (Hout : Forall no_lf (hf ++ [gen_line now])%list).
  { apply Forall_app. split; [by apply Forall_no_lf_filter|].
    constructor; [apply gen_line_no_lf|constructor]. }
  assert (Hne : (hf ++ [gen_line now])%list <> []) by (by destruct hf).
  assert (Hcount : List.length
                     (List.filter (startswith merged_on) (hf ++ [gen_line now])%list) = 1).
  { rewrite List.filter_app. unfold hf. rewrite filter_marker_filtered.
    cbn [List.filter app]. by rewrite gen_line_marker. }
  destruct (join_ends newline hf (gen_line now)) as [p Hp].
  destruct (nonempty (join newline rendered)) eqn:Hbody.
  - assert (Hr : rendered <> []) by (by destruct rendered).
    assert (Hentries : entries <> []) by (by destruct entries).
    split.
    + unfold marker_lines.
      replace ((join newline (hf ++ [gen_line now]) ++ (newline ++ newline)
                ++ join newline rendered) ++ newline)
        with (join newline (hf ++ [gen_line now]) ++ newline
              ++ ("" ++ newline ++ (join newline rendered ++ newline ++ "")))
        by (by rewrite !append_assoc, append_nil_r).
      rewrite !split_lf_append, !split_lf_join by
        (done || by apply Forall_no_lf_rendered).
      rewrite (List.filter_app _ (hf ++ [gen_line now])), length_app, Hcount.
      rewrite !List.filter_app. unfold rendered.
      by rewrite filter_marker_rendered.
    + destruct (exists_last Hentries) as (init & e & ->).
      unfold rendered. rewrite map_app. simpl.
      destruct (join_ends newline (map render_entry init) (render_entry e)) as [q ->].
      apply Forall_app in He as [_ He]. inversion He as [|? ? Hpe _]; subst.
      destruct (render_entry_plain e Hpe) as (Hnl & Hnon & _).
      rewrite <- !append_assoc. by apply trailing_lf_one.
  - split.
    + unfold marker_lines.
      replace (join newline (hf ++ [gen_line now]) ++ newline)
        with (join newline (hf ++ [gen_line now]) ++ newline ++ "") by done.
      rewrite split_lf_append, split_lf_join by done.
      by rewrite (List.filter_app _ (hf ++ [gen_line now])), length_app, Hcount.
    + rewrite Hp. apply trailing_lf_one; [apply gen_line_no_lf|apply gen_line_nonempty].
Qed.
End Rendering.

Lemma build_contents_one_marker_witness :
  Forall no_lf ["# my list"; "# Merged on 2020-01-01 00:00 UTC"] /\
  Forall plain_entry [("123", "spam"); ("456", "")] /\
  marker_lines
    (build_contents {| year := 2024; month := 3; day := 7; hour := 9; minute := 5 |}
       ["# my list"; "# Merged on 2020-01-01 00:00 UTC"] [("123", "spam"); ("456", "")]) = 1 /\
  trailing_lf
    (build_contents {| year := 2024; month := 3; day := 7; hour := 9; minute := 5 |}
       ["# my list"; "# Merged on 2020-01-01 00:00 UTC"] [("123", "spam"); ("456", "")]) = 1.
Proof.
  assert (H1 : Forall no_lf ["# my list"; "# Merged on 2020-01-01 00:00 UTC"])
    by (repeat constructor).
  assert (H2 : Forall plain_entry [("123", "spam"); ("456", "")]).
  { repeat constructor; simpl; discriminate. }
  split; [exact H1|]. split; [exact H2|].
  exact (build_contents_one_marker _ _ _ H1 H2).
Defined.

(** C7 fails as stated: a value that itself starts with the marker gives a
    second marker line, and so does a header line or a comment with a
    marker after a line feed; an empty last value leaves two line feeds at
    the end. *)
Lemma build_contents_marker_in_body :
  marker_lines
    (build_contents {| year := 2024; month := 3; day := 7; hour := 9; minute := 5 |}
       [] [("# Merged on never", "")]) = 2 /\
  marker_lines
    (build_contents {| year := 2024; month := 3; day := 7; hour := 9; minute := 5 |}
       ["# my list" ++ newline ++ "# Merged on never"] []) = 2 /\
  marker_lines
    (build_contents {| year := 2024; month := 3; day := 7; hour := 9; minute := 5 |}
       [] [("1", "spam" ++ newline ++ "# Merged on never")]) = 2 /\
  trailing_lf
    (build_contents {| year := 2024; month := 3; day := 7; hour := 9; minute := 5 |}
       ["# my list"] [("1", ""); ("", "")]) = 2.
Proof. repeat split; vm_compute; reflexivity. Qed.

Lemma merge_entries_permutation_witness :
  ([("2", "a"); ("@Zed", "")] ++ [("10", "")])%list
    ≡ₚ ([("10", "")] ++ [("@Zed", ""); ("2", "a")])%list /\
  values (merge_entries [("2", "a"); ("@Zed", "")] [("10", "")])
  = values (merge_entries [("10", "")] [("@Zed", ""); ("2", "a")]).
Proof.
  assert (Hp : ([("2", "a"); ("@Zed", "")] ++ [("10", "")])%list
                 ≡ₚ ([("10", "")] ++ [("@Zed", ""); ("2", "a")])%list).
  { simpl. apply (Permutation_trans (l' := [("2", "a"); ("10", ""); ("@Zed", "")])).
    - apply perm_skip, perm_swap.
    - apply (Permutation_trans (l' := [("10", ""); ("2", "a"); ("@Zed", "")])).
      + apply perm_swap.
      + apply perm_skip, perm_swap. }
  split; [exact Hp|].
  apply (merge_entries_permutation _ _ _ _ Hp).
  intros e1 e2 k H1 H2.
  apply list_elem_of_In in H1, H2. simpl in H1, H2.
  destruct H1 as [<-|[<-|[<-|[]]]], H2 as [<-|[<-|[<-|[]]]];
    vm_compute; congruence.
Defined.

(** C2. The key of the code parts from the key the specification words:
    ["--5"] is not numeric once a single ['-'] is stripped, so it belongs
    after the numeric entries, in lexicographic order; the code strips every
    leading ['-'], takes it for numeric, and [int] raises, so nothing is
    ordered.  The example of the specification does sort as stated. *)
Theorem merge_entries_double_dash_unordered :
  spec_numeric "--5" = false /\
  isdigit (lstrip_char "-" "--5") = true /\
  merge_entries [] [("10", ""); ("--5", ""); ("2", "")] = Raise ValueError /\
  merge_entries [] [("10", ""); ("@zeta", ""); ("2", ""); ("@alpha", "")]
  = Ok [("2", ""); ("10", ""); ("@alpha", ""); ("@zeta", "")].
Proof. repeat split; vm_compute; reflexivity. Qed.

(** ** What a returned merge looks like, and when none is returned *)

Lemma merge_entries_sorted old new r :
  merge_entries old new = Ok r -> StronglySorted entry_le r.
Proof.
  unfold merge_entries. rewrite sorted_unfold.
  destruct (mapM (decorate sort_key) _) as [kl|e] eqn:Hkl; simpl; [|done].
  intros [= <-]. apply mapM_decorate_ok in Hkl as [_ HF].
  assert (HF' : Forall (fun p => sort_key p.2 = Ok p.1) (sort_keyed key_ltb kl))
    by (by rewrite sort_keyed_perm).
  assert (HS : StronglySorted (keyed_le key_ltb) (sort_keyed key_ltb kl)).
  { apply sort_keyed_strongly_sorted; [apply key_ltb_asym|].
    intros x y z Hxy Hyz. by apply (key_le_trans x y z). }
  induction HS as [|p l HS IH Hp]; simpl; [constructor|].
  inversion HF' as [|? ? Hk HFl]; subst. constructor; [by apply IH|].
  rewrite Forall_forall in Hp, HFl. apply Forall_forall.
  intros e He. rewrite map_fmap in He. apply list_elem_of_fmap in He as (q & -> & Hq).
  exists p.1, q.1. split; [done|]. split; [by apply HFl|]. by apply Hp.
Qed.

Lemma merge_entries_raises old new e :
  merge_entries old new = Raise e ->
  e = ValueError /\
  exists x, x ∈ map (fun en : entry => normalize_entry en.1) (old ++ new) /\
            isdigit (lstrip_char "-" x) = true /\ int x = Raise ValueError.
Proof.
  unfold merge_entries. rewrite sorted_unfold.
  destruct (mapM (decorate sort_key) _) as [kl|e'] eqn:Hkl; simpl; [done|].
  intros [= ->]. apply mapM_raises in Hkl as ([x c] & Hin & Hx).
  unfold decorate in Hx. destruct (sort_key (x, c)) as [k|e'] eqn:Hk; simpl in Hx; [done|].
  injection Hx as ->. pose proof (sort_key_raises _ _ Hk) as ->. split; [done|].
  exists x. split.
  - apply merge_loop_values. rewrite map_fmap. apply list_elem_of_fmap. by exists (x, c).
  - unfold sort_key in Hk. cbn [fst] in Hk.
    destruct (isdigit (lstrip_char "-" x)); [|done]. split; [done|].
    destruct (int x) as [n|e'] eqn:Hi; simpl in Hk; [done|].
    by apply int_raises in Hi as ->.
Qed.

(** ** The key of the code and the key of the specification *)

Lemma strip_one_dash_cons c r :
  strip_one_dash (String c r) = if Ascii.eqb c "-" then r else String c r.
Proof. destruct c as [[] [] [] [] [] [] [] []]; reflexivity. Qed.

Lemma isdigit_char_not_dash d : isdigit_char d = true -> Ascii.eqb d "-" = false.
Proof. destruct d as [[] [] [] [] [] [] [] []]; vm_compute; congruence. Qed.

Lemma isdigit_lstrip_dash r : isdigit r = true -> lstrip_char "-" r = r.
Proof.
  destruct r as [|d r]; [done|]. unfold isdigit. cbn [nonempty forallb_str lstrip_char].
  intros [_ [Hd _]%andb_true_iff]%andb_true_iff.
  by rewrite (isdigit_char_not_dash d Hd).
Qed.

Lemma int_double_dash r : int (String "-" (String "-" r)) = Raise ValueError.
Proof.
  unfold int, strip. change (lstrip (String "-" (String "-" r))) with (String "-" (String "-" r)).
  destruct (rstrip_head "-" (String "-" r) eq_refl) as [z Hz]. rewrite Hz.
  assert (Hz' : exists z', z = String "-" z').
  { cbn [rstrip] in Hz. change (isspace "-") with false in Hz.
    destruct (rstrip r); cbn in Hz; injection Hz as <-; eauto. }
  destruct Hz' as [z' ->]. reflexivity.
Qed.

(** Where [sort_key] returns, it classifies as the specification does. *)
Lemma sort_key_ok_spec x c k :
  sort_key (x, c) = Ok k ->
  (spec_numeric x = true /\ exists n, int x = Ok n /\ k = KNum n) \/
  (spec_numeric x = false /\ k = KStr (lower x)).
Proof.
  unfold sort_key, spec_numeric. cbn [fst].
  destruct (isdigit (lstrip_char "-" x)) eqn:Hd.
  - destruct (int x) as [n|e] eqn:Hi; simpl; [|done]. intros [= <-]. left.
    split; [|by exists n]. destruct x as [|a r]; [done|].
    rewrite strip_one_dash_cons. cbn [lstrip_char] in Hd.
    destruct (Ascii.eqb_spec a "-") as [->|_]; [|done].
    destruct r as [|b r]; [done|]. cbn [lstrip_char] in Hd.
    destruct (Ascii.eqb_spec b "-") as [->|_]; [|done].
    by rewrite int_double_dash in Hi.
  - intros [= <-]. right. split; [|done]. destruct x as [|a r]; [done|].
    rewrite strip_one_dash_cons. cbn [lstrip_char] in Hd.
    destruct (Ascii.eqb a "-"); [|done].
    destruct (isdigit r) eqn:Hr; [|done].
    by rewrite (isdigit_lstrip_dash r Hr), Hr in Hd.
Qed.

(** ** The reader *)

Lemma forallb_str_lstrip f s : forallb_str f s = true -> forallb_str f (lstrip s) = true.
Proof.
  induction s as [|c s IH]; [done|]. cbn [forallb_str lstrip].
  intros [Hc Hs]%andb_true_iff. destruct (isspace c); [by apply IH|].
  cbn [forallb_str]. by rewrite Hc, Hs.
Qed.

Lemma forallb_str_rstrip f s : forallb_str f s = true -> forallb_str f (rstrip s) = true.
Proof.
  induction s as [|c s IH]; [done|]. cbn [forallb_str rstrip].
  intros [Hc Hs]%andb_true_iff. specialize (IH Hs).
  destruct (rstrip s) as [|d r].
  - destruct (isspace c); [done|]. cbn [forallb_str]. by rewrite Hc.
  - cbn [forallb_str] in *. by rewrite Hc, IH.
Qed.

Lemma forallb_str_strip f s : forallb_str f s = true -> forallb_str f (strip s) = true.
Proof. intros H. by apply forallb_str_rstrip, forallb_str_lstrip. Qed.

Lemma forallb_str_partition f ch s a b :
  partition ch s = Some (a, b) -> forallb_str f s = true ->
  forallb_str f a = true /\ forallb_str f b = true.
Proof.
  revert a. induction s as [|c s IH]; intros a; [done|]. cbn [partition forallb_str].
  destruct (Ascii.eqb c ch).
  - intros [= <- <-] [_ Hs]%andb_true_iff. done.
  - destruct (partition ch s) as [[a' b']|]; [|done].
    intros [= <- <-] [Hc Hs]%andb_true_iff. destruct (IH a' eq_refl Hs) as [Ha Hb].
    cbn [forallb_str]. by rewrite Hc, Ha.
Qed.

Lemma partition_before_no_hash s a b : partition "#" s = Some (a, b) -> no_hash a.
Proof.
  unfold no_hash. revert a. induction s as [|c s IH]; intros a; [done|]. cbn [partition].
  destruct (Ascii.eqb c "#") eqn:Hc.
  - by intros [= <- <-].
  - destruct (partition "#" s) as [[a' b']|]; [|done].
    intros [= <- <-]. cbn [forallb_str]. by rewrite Hc, (IH a' eq_refl).
Qed.

Lemma partition_none_no_hash s : partition "#" s = None -> no_hash s.
Proof.
  unfold no_hash. induction s as [|c s IH]; [done|]. cbn [partition forallb_str].
  destruct (Ascii.eqb c "#") eqn:Hc; [done|].
  destruct (partition "#" s) as [[a' b']|]; [done|]. intros _. by rewrite IH.
Qed.

Lemma strip_nil : strip "" = "".
Proof. reflexivity. Qed.

(** What [split_main_and_comment] returns, whatever the line. *)
Lemma split_main_and_comment_wf s main comment :
  split_main_and_comment s = (main, comment) ->
  strip main = main /\ strip comment = comment /\ no_hash main /\
  (no_break s -> no_break main /\ no_break comment).
Proof.
  unfold split_main_and_comment.
  destruct (partition "#" s) as [[a b]|] eqn:Hp; intros [= <- <-].
  - repeat split; try apply strip_idem.
    + apply forallb_str_strip. by apply (partition_before_no_hash s a b).
    + apply forallb_str_strip. by apply (forallb_str_partition _ _ _ _ _ Hp H).
    + apply forallb_str_strip. by apply (forallb_str_partition _ _ _ _ _ Hp H).
  - repeat split; try apply strip_idem; try done.
    + apply forallb_str_strip. by apply partition_none_no_hash.
    + by apply forallb_str_strip.
Qed.

Lemma nonempty_true s : nonempty s = true <-> s <> "".
Proof. by destruct s. Qed.

Lemma read_loop_inv lines : forall header entries hdone,
  Forall no_break lines ->
  Forall header_line header -> Forall entry_read entries ->
  Forall header_line (read_loop header entries hdone lines).1 /\
  Forall entry_read (read_loop header entries hdone lines).2.
Proof.
  induction lines as [|raw rest IH]; intros header entries hdone Hl Hh He; [done|].
  inversion Hl as [|? ? Hraw Hrest]; subst. cbn [read_loop]. cbv zeta.
  assert (Hs : no_break (rstrip raw)) by (by apply forallb_str_rstrip).
  destruct (negb hdone && (negb (nonempty (rstrip raw)) || startswith "#" (rstrip raw)))
    eqn:Hc.
  - apply IH; [done| |done]. apply Forall_app. split; [done|].
    constructor; [|constructor]. split; [apply rstrip_idem|]. split; [|done].
    apply andb_true_iff in Hc as [_ [Hn|Hn]%orb_true_iff]; [left|by right].
    by destruct (rstrip raw).
  - destruct (split_main_and_comment (rstrip raw)) as [main comment] eqn:Hsp.
    destruct (split_main_and_comment_wf _ _ _ Hsp) as (Hm & Hcm & Hnh & Hnb).
    destruct (Hnb Hs) as [Hbm Hbc].
    destruct (nonempty main) eqn:Hne; cbn [negb]; apply IH; try done.
    apply Forall_app. split; [done|]. constructor; [|constructor].
    split; [by apply nonempty_true|]. done.
Qed.

Lemma splitlines_cons c s :
  splitlines (String c s) =
  if Ascii.eqb c "013" then
    match s with
    | String d s'' => if Ascii.eqb d "010" then "" :: splitlines s'' else "" :: splitlines s
    | EmptyString => "" :: splitlines s
    end
  else if islinebreak c then "" :: splitlines s
  else match splitlines s with
       | [] => [String c ""]
       | l :: ls => String c l :: ls
       end.
Proof.
  destruct s as [|d s'']; [reflexivity|].
  destruct d as [[] [] [] [] [] [] [] []]; reflexivity.
Qed.

Lemma islinebreak_cr c : Ascii.eqb c "013" = true -> islinebreak c = true.
Proof. intros ->%Ascii.eqb_eq. reflexivity. Qed.

Lemma splitlines_no_break_aux s :
  Forall no_break (splitlines s) /\ forall c, Forall no_break (splitlines (String c s)).
Proof.
  induction s as [|d s [IH1 IH2]].
  - split; [constructor|]. intros c. rewrite splitlines_cons.
    destruct (Ascii.eqb c "013"); [by repeat constructor|].
    destruct (islinebreak c) eqn:Hc; [by repeat constructor|].
    repeat constructor. unfold no_break. cbn [forallb_str]. by rewrite Hc.
  - split; [apply IH2|]. intros c. rewrite splitlines_cons.
    destruct (Ascii.eqb c "013") eqn:Hcr.
    + destruct (Ascii.eqb d "010"); constructor; done.
    + destruct (islinebreak c) eqn:Hc; [by constructor|].
      pose proof (IH2 d) as H. destruct (splitlines (String d s)) as [|l ls].
      * repeat constructor. unfold no_break. cbn [forallb_str]. by rewrite Hc.
      * inversion H; subst. constructor; [|done].
        unfold no_break in *. cbn [forallb_str]. by rewrite Hc.
Qed.

(** No line of [splitlines] holds a line boundary. *)
Lemma splitlines_no_break s : Forall no_break (splitlines s).
Proof. apply splitlines_no_break_aux. Qed.

(** The loop of [read_file], said without a loop. *)
Lemma read_loop_shape lines : forall header entries hdone,
  read_loop header entries hdone lines =
  if hdone then (header, (entries ++ omap entry_of_line lines)%list)
  else ((header ++ map rstrip (header_run lines))%list,
        (entries ++ omap entry_of_line (after_header lines))%list).
Proof.
  induction lines as [|raw rest IH]; intros header entries hdone.
  - destruct hdone; simpl; by rewrite !app_nil_r.
  - assert (Hbody : forall h es,
      (let '(main, comment) := split_main_and_comment (rstrip raw) in
       if negb (nonempty main) then read_loop h es true rest
       else read_loop h (es ++ [(main, comment)]) true rest)
      = (h, (es ++ omap entry_of_line (raw :: rest))%list)).
    { intros h es. cbn [omap list_omap]. unfold entry_of_line at 1.
      destruct (split_main_and_comment (rstrip raw)) as [main comment].
      destruct (nonempty main); cbn [negb]; rewrite IH; [|done].
      by rewrite <- app_assoc. }
    cbn [read_loop]. cbv zeta. destruct hdone; cbn [negb andb]; [apply Hbody|].
    cbn [header_run after_header]. unfold is_header_raw.
    destruct (negb (nonempty (rstrip raw)) || startswith "#" (rstrip raw)).
    + rewrite IH. cbn [map]. by rewrite <- app_assoc.
    + rewrite Hbody. cbn [map]. by rewrite app_nil_r.
Qed.

(** X1. Every entry [read_file] returns has a non-empty value that is
    stripped and free of ['#'], and a stripped comment; neither holds a
    line boundary. *)
Theorem read_file_entries_wf (fs : gmap string node) path header entries :
  read_file fs path = Ok (header, entries) -> Forall entry_read entries.
Proof.
  unfold read_file. destruct (fs !! path) as [[text|]|]; [|done|].
  - intros [= H].
    destruct (read_loop_inv (splitlines text) [] [] false) as [_ He];
      [apply splitlines_no_break|constructor..|]. by rewrite H in He.
  - intros [= <- <-]. constructor.
Qed.

Lemma read_file_entries_wf_witness :
  read_file (<["b.txt" := RegularFile "# top  
 @Ann # x # y
#late"]> ∅) "b.txt" = Ok (["# top"], [("@Ann", "x # y")]) /\
  Forall entry_read [("@Ann", "x # y")].
Proof.
  assert (H : read_file (<["b.txt" := RegularFile "# top  
 @Ann # x # y
#late"]> ∅) "b.txt" = Ok (["# top"], [("@Ann", "x # y")])) by (vm_compute; reflexivity).
  split; [exact H|]. exact (read_file_entries_wf _ _ _ _ H).
Defined.

(** X2. Every header line [read_file] returns is stripped on the right and
    is empty or starts with ['#']. *)
Theorem read_file_header_wf (fs : gmap string node) path header entries :
  read_file fs path = Ok (header, entries) -> Forall header_line header.
Proof.
  unfold read_file. destruct (fs !! path) as [[text|]|]; [|done|].
  - intros [= H].
    destruct (read_loop_inv (splitlines text) [] [] false) as [Hh _];
      [apply splitlines_no_break|constructor..|]. by rewrite H in Hh.
  - intros [= <- <-]. constructor.
Qed.

Lemma read_file_header_wf_witness :
  read_file (<["b.txt" := RegularFile "# top  

12"]> ∅) "b.txt" = Ok (["# top"; ""], [("12", "")]) /\
  Forall header_line ["# top"; ""].
Proof.
  assert (H : read_file (<["b.txt" := RegularFile "# top  

12"]> ∅) "b.txt" = Ok (["# top"; ""], [("12", "")])) by (vm_compute; reflexivity).
  split; [exact H|]. exact (read_file_header_wf _ _ _ _ H).
Defined.

(** X3. For a regular file, the header [read_file] returns is the leading
    run of blank and ['#'] lines, stripped on the right; each line from the
    first other line on gives at most one entry, and the blank and comment
    lines among them give none. *)
Theorem read_file_shape (fs : gmap string node) path text :
  fs !! path = Some (RegularFile text) ->
  read_file fs path =
  Ok (map rstrip (header_run (splitlines text)),
      omap entry_of_line (after_header (splitlines text))) /\
  (forall raw, is_header_raw raw = true -> entry_of_line raw = None).
Proof.
  intros H. split.
  - unfold read_file. rewrite H. by rewrite read_loop_shape.
  - intros raw Hr. unfold is_header_raw in Hr. unfold entry_of_line, split_main_and_comment.
    apply orb_true_iff in Hr as [Hr|Hr].
    + destruct (rstrip raw); [reflexivity|done].
    + destruct (rstrip raw) as [|c r]; [done|]. cbn [startswith] in Hr.
      apply andb_true_iff in Hr as [Hc%Ascii.eqb_eq _]. subst c. reflexivity.
Qed.

Lemma read_file_shape_witness :
  (<["b.txt" := RegularFile "# top
12
# late
13"]> ∅ : gmap string node) !! "b.txt" = Some (RegularFile "# top
12
# late
13") /\
  read_file (<["b.txt" := RegularFile "# top
12
# late
13"]> ∅) "b.txt" = Ok (["# top"], [("12", ""); ("13", "")]).
Proof.
  assert (H : (<["b.txt" := RegularFile "# top
12
# late
13"]> ∅ : gmap string node) !! "b.txt" = Some (RegularFile "# top
12
# late
13")) by (vm_compute; reflexivity).
  split; [exact H|].
  rewrite (proj1 (read_file_shape _ _ _ H)). vm_compute. reflexivity.
Defined.

(** ** Writing an entry and reading it back *)

Lemma strip_fixed s : strip s = s -> lstrip s = s /\ rstrip s = s.
Proof.
  intros H. assert (Hr : rstrip s = s).
  { rewrite <- H at 1. unfold strip. by rewrite rstrip_idem. }
  split; [|done]. rewrite <- H at 1. unfold strip.
  rewrite (lstrip_rstrip (lstrip s)) by apply lstrip_idem. done.
Qed.

Lemma no_hash_partition s : no_hash s -> partition "#" s = None.
Proof.
  unfold no_hash. induction s as [|c s IH]; [done|]. cbn [forallb_str partition].
  intros [Hc Hs]%andb_true_iff. apply negb_true_iff in Hc. by rewrite Hc, (IH Hs).
Qed.

Lemma partition_append a b : no_hash a -> partition "#" (a ++ String "#" b) = Some (a, b).
Proof.
  unfold no_hash. induction a as [|c a IH]; [done|]. rewrite append_cons.
  cbn [forallb_str partition]. intros [Hc Ha]%andb_true_iff.
  apply negb_true_iff in Hc. by rewrite Hc, (IH Ha).
Qed.

Lemma rstrip_spaces w : forallb_str isspace w = true -> rstrip w = "".
Proof.
  induction w as [|c w IH]; [done|]. cbn [forallb_str rstrip].
  intros [Hc Hw]%andb_true_iff. by rewrite (IH Hw), Hc.
Qed.

Lemma rstrip_append_spaces a w :
  forallb_str isspace w = true -> rstrip (a ++ w) = rstrip a.
Proof.
  intros Hw. induction a as [|c a IH]; [by apply rstrip_spaces|].
  rewrite append_cons. cbn [rstrip]. by rewrite IH.
Qed.

Lemma append_eq_nil (a b : string) : a ++ b = "" -> b = "".
Proof. destruct a; [done|]. by rewrite append_cons. Qed.

Lemma rstrip_append_fixed a b : rstrip b = b -> b <> "" -> rstrip (a ++ b) = a ++ b.
Proof.
  intros Hb Hne. induction a as [|c a IH]; [done|].
  rewrite append_cons. cbn [rstrip]. rewrite IH.
  destruct (a ++ b) eqn:Hab; [|done]. by apply append_eq_nil in Hab.
Qed.

Lemma lstrip_append s w : lstrip s = s -> s <> "" -> lstrip (s ++ w) = s ++ w.
Proof.
  destruct s as [|c s]; [done|]. intros Hc%lstrip_fixed_head _.
  rewrite append_cons. cbn [lstrip]. by rewrite Hc.
Qed.

Lemma strip_append_spaces m w :
  strip m = m -> forallb_str isspace w = true -> strip (m ++ w) = m.
Proof.
  intros [Hl Hr]%strip_fixed Hw. unfold strip. destruct m as [|c m].
  - change ("" ++ w) with w. clear Hl Hr. induction w as [|d w IH]; [done|].
    cbn [forallb_str] in Hw. apply andb_true_iff in Hw as [Hd Hw].
    cbn [lstrip]. rewrite Hd. by apply IH.
  - rewrite (lstrip_append (String c m) w Hl) by done.
    by rewrite rstrip_append_spaces.
Qed.

Lemma split_main_and_comment_render (m c : string) :
  strip m = m -> no_hash m -> strip c = c ->
  split_main_and_comment (render_entry (m, c)) = (m, c).
Proof.
  intros Hm Hh Hc. unfold render_entry, split_main_and_comment.
  destruct c as [|x c]; cbn [nonempty].
  - by rewrite (no_hash_partition m Hh), Hm.
  - replace (m ++ "  # " ++ String x c)
      with ((m ++ "  ") ++ String "#" (String " " (String x c)))
      by (by rewrite append_assoc).
    rewrite partition_append.
    + rewrite (strip_append_spaces m "  " Hm eq_refl). f_equal.
      destruct (strip_fixed _ Hc) as [Hl Hr]. unfold strip.
      change (lstrip (String " " (String x c))) with (lstrip (String x c)).
      by rewrite Hl, Hr.
    + unfold no_hash in *. clear Hm. induction m as [|y m IH]; [done|].
      rewrite append_cons. cbn [forallb_str] in *.
      apply andb_true_iff in Hh as [Hy Hh]. by rewrite Hy, (IH Hh).
Qed.

(** X4. An entry with a stripped value free of ['#'] and a stripped comment
    is read back from its rendered line as it was. *)
Theorem render_split_roundtrip (m c : string) :
  strip m = m -> no_hash m -> strip c = c ->
  split_main_and_comment (render_entry (m, c)) = (m, c).
Proof. apply split_main_and_comment_render. Qed.

Lemma render_split_roundtrip_witness :
  strip "@ann" = "@ann" /\ no_hash "@ann" /\ strip "spam # twice" = "spam # twice" /\
  split_main_and_comment (render_entry ("@ann", "spam # twice")) = ("@ann", "spam # twice").
Proof.
  assert (H1 : strip "@ann" = "@ann") by reflexivity.
  assert (H2 : no_hash "@ann") by reflexivity.
  assert (H3 : strip "spam # twice" = "spam # twice") by reflexivity.
  repeat (split; [assumption|]).
  exact (render_split_roundtrip _ _ H1 H2 H3).
Defined.

(** ** Writing a file and reading it back *)

Lemma no_break_append a b : no_break (a ++ b) <-> no_break a /\ no_break b.
Proof.
  unfold no_break. induction a as [|x a IH]; [naive_solver|].
  rewrite append_cons. cbn [forallb_str]. rewrite !andb_true_iff, IH. naive_solver.
Qed.

Lemma no_break_no_lf s : no_break s -> no_lf s.
Proof.
  unfold no_break, no_lf. induction s as [|c s IH]; [done|]. cbn [forallb_str].
  intros [Hc Hs]%andb_true_iff. rewrite (IH Hs), andb_true_r.
  destruct (Ascii.eqb_spec c "010") as [->|_]; done.
Qed.

Lemma no_break_string_of_uint d : no_break (NilEmpty.string_of_uint d).
Proof. unfold no_break. induction d; simpl; done. Qed.

Lemma no_break_zfill w s : no_break s -> no_break (zfill w s).
Proof.
  intros Hs. unfold zfill. apply no_break_append. split; [|done].
  unfold no_break. induction (w - String.length s) as [|n IH]; simpl; done.
Qed.

Lemma no_break_gen_line now : no_break (gen_line now).
Proof.
  unfold gen_line, strftime. apply no_break_append. split; [reflexivity|].
  repeat (apply no_break_append; split;
          [first [apply no_break_zfill, no_break_string_of_uint | reflexivity]|]).
  reflexivity.
Qed.

Lemma gen_line_marker_hash now : startswith "#" (gen_line now) = true.
Proof. reflexivity. Qed.

Lemma gen_line_header_line now : header_line (gen_line now).
Proof.
  split; [|split; [right; apply gen_line_marker_hash|apply no_break_gen_line]].
  unfold gen_line, strftime. rewrite <- !append_assoc.
  by apply rstrip_append_fixed.
Qed.

Lemma splitlines_line l rest :
  no_break l -> splitlines (l ++ newline ++ rest) = l :: splitlines rest.
Proof.
  unfold no_break. induction l as [|c l IH]; [done|]. cbn [forallb_str].
  intros [Hc Hl]%andb_true_iff. apply negb_true_iff in Hc.
  rewrite append_cons, splitlines_cons, (IH Hl), Hc.
  destruct (Ascii.eqb c "013") eqn:Hcr; [|done].
  apply islinebreak_cr in Hcr. congruence.
Qed.

Lemma join_cons2 sep x y (ls : list string) :
  join sep (x :: y :: ls) = x ++ sep ++ join sep (y :: ls).
Proof. reflexivity. Qed.

Lemma join_app sep ls1 ls2 :
  ls1 <> [] -> ls2 <> [] ->
  join sep (ls1 ++ ls2) = join sep ls1 ++ sep ++ join sep ls2.
Proof.
  intros H1 H2. induction ls1 as [|x ls1 IH]; [done|].
  destruct ls1 as [|y ls1].
  - destruct ls2 as [|z ls2]; [done|]. reflexivity.
  - change ((x :: y :: ls1) ++ ls2)%list with (x :: y :: (ls1 ++ ls2))%list.
    rewrite !join_cons2. change (y :: (ls1 ++ ls2))%list with ((y :: ls1) ++ ls2)%list.
    rewrite IH by done. by rewrite !append_assoc.
Qed.

Lemma splitlines_join ls :
  ls <> [] -> Forall no_break ls -> splitlines (join newline ls ++ newline) = ls.
Proof.
  intros Hne HF. induction HF as [|x ls Hx HF IH]; [done|].
  destruct ls as [|y ls].
  - change (join newline [x] ++ newline) with (x ++ newline ++ "").
    by rewrite splitlines_line.
  - rewrite join_cons2, !append_assoc, splitlines_line by done.
    by rewrite IH.
Qed.

Lemma entry_read_render e :
  entry_read e ->
  render_entry e <> "" /\ no_break (render_entry e) /\
  rstrip (render_entry e) = render_entry e /\
  startswith "#" (render_entry e) = false.
Proof.
  destruct e as [m c]. intros (Hne & Hm & Hh & Hc & Hbm & Hbc). cbn [fst snd] in *.
  destruct (strip_fixed _ Hm) as [_ Hrm]. destruct (strip_fixed _ Hc) as [_ Hrc].
  destruct m as [|x m]; [done|].
  assert (Hx : Ascii.eqb "#" x = false).
  { unfold no_hash in Hh. cbn [forallb_str] in Hh.
    apply andb_true_iff in Hh as [Hx _]. apply negb_true_iff in Hx.
    by rewrite Ascii.eqb_sym. }
  unfold render_entry. destruct c as [|y c]; cbn [nonempty].
  - repeat split; [done..|]. cbn [startswith]. by rewrite Hx.
  - repeat split.
    + by rewrite append_cons.
    + apply no_break_append. split; [done|]. apply no_break_append. by split.
    + apply rstrip_append_fixed; [|done]. by apply (rstrip_append_fixed "  # ").
    + rewrite append_cons. cbn [startswith]. by rewrite Hx.
Qed.

Lemma entry_of_line_render e : entry_read e -> entry_of_line (render_entry e) = Some e.
Proof.
  intros He. destruct (entry_read_render e He) as (_ & _ & Hr & _).
  destruct e as [m c]. destruct He as (Hne & Hm & Hh & Hc & _). cbn [fst snd] in *.
  unfold entry_of_line. rewrite Hr, (split_main_and_comment_render m c Hm Hh Hc).
  by destruct m.
Qed.

Lemma is_header_raw_render e : entry_read e -> is_header_raw (render_entry e) = false.
Proof.
  intros He. destruct (entry_read_render e He) as (Hne & _ & Hr & Hh).
  unfold is_header_raw. rewrite Hr, Hh. by destruct (render_entry e).
Qed.

Lemma is_header_raw_header h : header_line h -> is_header_raw h = true.
Proof.
  intros (Hr & [->|Hh] & _); [reflexivity|].
  unfold is_header_raw. rewrite Hr, Hh. apply orb_true_r.
Qed.

Lemma header_run_app hs rs :
  Forall header_line hs ->
  (forall r rs', rs = r :: rs' -> is_header_raw r = false) ->
  header_run (hs ++ rs) = hs /\ after_header (hs ++ rs) = rs.
Proof.
  intros Hh Hr. induction Hh as [|h hs Hh _ IH].
  - destruct rs as [|r rs']; [done|]. cbn [app header_run after_header].
    by rewrite (Hr r rs' eq_refl).
  - cbn [app header_run after_header]. rewrite (is_header_raw_header h Hh).
    destruct IH as [-> ->]. done.
Qed.

Lemma omap_entry_of_line_render entries :
  Forall entry_read entries -> omap entry_of_line (map render_entry entries) = entries.
Proof.
  induction 1 as [|e entries He _ IH]; [done|]. cbn [map omap list_omap].
  rewrite (entry_of_line_render e He). cbn [omap list_omap] in IH. by rewrite IH.
Qed.

Lemma map_rstrip_header hs : Forall header_line hs -> map rstrip hs = hs.
Proof.
  induction 1 as [|h hs [Hr _] _ IH]; [done|]. cbn [map]. by rewrite Hr, IH.
Qed.

Lemma Forall_header_line_filter (f : string -> bool) header :
  Forall header_line header -> Forall header_line (List.filter f header).
Proof.
  induction 1 as [|h header Hh _ IH]; [constructor|]. cbn [List.filter].
  destruct (f h); [by constructor|done].
Qed.

(** The text of [build_contents] as a list of lines, each closed by a line
    feed. *)
Lemma build_contents_lines now header entries :
  Forall entry_read entries ->
  build_contents now header entries =
  join newline
    ((List.filter (fun h => negb (startswith merged_on h)) header ++ [gen_line now])
     ++ match entries with [] => [] | _ => "" :: map render_entry entries end)%list
  ++ newline.
Proof.
  intros He. rewrite build_contents_unfold. cbv zeta.
  destruct entries as [|e entries]; [by rewrite app_nil_r|].
  inversion He as [|? ? He1 _]; subst.
  destruct (entry_read_render e He1) as (Hne & _).
  assert (Hb : nonempty (join newline (map render_entry (e :: entries))) = true).
  { cbn [map]. destruct (map render_entry entries).
    - by apply nonempty_true.
    - rewrite join_cons2. destruct (render_entry e); [done|]. by rewrite append_cons. }
  rewrite Hb. rewrite (join_app newline _ ("" :: _)); [|by destruct (List.filter _ header)|done].
  cbn [map]. rewrite (join_cons2 newline ""). by rewrite !append_assoc.
Qed.

Lemma Forall_no_break_rendered entries :
  Forall entry_read entries -> Forall no_break (map render_entry entries).
Proof.
  induction 1 as [|e entries He _ IH]; cbn [map]; constructor; [|done].
  by destruct (entry_read_render e He) as (_ & ? & _).
Qed.

(** The lines of the text [build_contents] writes. *)
Lemma build_contents_splitlines now header entries :
  Forall header_line header -> Forall entry_read entries ->
  splitlines (build_contents now header entries) =
  ((List.filter (fun h => negb (startswith merged_on h)) header ++ [gen_line now])
   ++ match entries with [] => [] | _ => "" :: map render_entry entries end)%list.
Proof.
  intros Hh He. rewrite (build_contents_lines now header entries He).
  apply splitlines_join; [by destruct (List.filter _ header)|].
  apply Forall_app. split.
  - apply Forall_app. split.
    + eapply Forall_impl; [by apply Forall_header_line_filter|]. by intros h (_ & _ & ?).
    + constructor; [apply no_break_gen_line|constructor].
  - destruct entries; [constructor|]. constructor; [done|].
    by apply Forall_no_break_rendered.
Qed.

Lemma header_out_header_line now header :
  Forall header_line header ->
  Forall header_line
    (List.filter (fun h => negb (startswith merged_on h)) header ++ [gen_line now])%list.
Proof.
  intros Hh. apply Forall_app. split; [by apply Forall_header_line_filter|].
  constructor; [apply gen_line_header_line|constructor].
Qed.

Lemma read_file_build_contents now header entries (fs : gmap string node) path :
  Forall header_line header -> Forall entry_read entries ->
  fs !! path = Some (RegularFile (build_contents now header entries)) ->
  read_file fs path =
  Ok (((List.filter (fun h => negb (startswith merged_on h)) header ++ [gen_line now])
       ++ match entries with [] => [] | _ => [""] end)%list,
      entries).
Proof.
  intros Hh He Hfs. unfold read_file. rewrite Hfs, read_loop_shape.
  rewrite (build_contents_splitlines now header entries Hh He). cbn [app].
  pose proof (header_out_header_line now header Hh) as Hout.
  destruct entries as [|e entries].
  - destruct (header_run_app _ [] Hout) as [H1 H2]; [done|].
    rewrite H1, H2. cbn [omap list_omap].
    by rewrite (map_rstrip_header _ Hout), app_nil_r.
  - set (hs := (List.filter _ header ++ [gen_line now])%list) in *.
    replace (hs ++ "" :: map render_entry (e :: entries))%list
      with ((hs ++ [""]) ++ map render_entry (e :: entries))%list
      by (by rewrite <- app_assoc).
    assert (Hhs : Forall header_line (hs ++ [""])%list).
    { apply Forall_app. split; [done|]. by repeat constructor. }
    destruct (header_run_app (hs ++ [""]) (map render_entry (e :: entries)) Hhs) as [H1 H2].
    { intros r rs' [= <- _]. apply is_header_raw_render. by inversion He. }
    rewrite H1, H2, (map_rstrip_header _ Hhs), (omap_entry_of_line_render _ He). done.
Qed.

(** X5. For a header and entries as [read_file] keeps them (header lines
    stripped on the right, empty or starting with ['#']; values non-empty,
    stripped and free of ['#']; comments stripped; no line boundary
    anywhere), reading back the text that [build_contents] writes returns
    the entries as they were written; the header comes back with its old
    marker lines replaced by the new one and, when there are entries, with
    the separating blank line added at its end. *)
Theorem build_contents_read_back now header entries (fs : gmap string node) path :
  Forall header_line header -> Forall entry_read entries ->
  fs !! path = Some (RegularFile (build_contents now header entries)) ->
  read_file fs path =
  Ok (((List.filter (fun h => negb (startswith merged_on h)) header ++ [gen_line now])
       ++ match entries with [] => [] | _ => [""] end)%list,
      entries).
Proof. apply read_file_build_contents. Qed.

Lemma build_contents_read_back_witness :
  Forall header_line ["# my list"; "# Merged on 2020-01-01 00:00 UTC"] /\
  Forall entry_read [("123", "spam"); ("@ann", "")] /\
  read_file
    (<["b.txt" := RegularFile
         (build_contents {| year := 2024; month := 3; day := 7; hour := 9; minute := 5 |}
            ["# my list"; "# Merged on 2020-01-01 00:00 UTC"]
            [("123", "spam"); ("@ann", "")])]> ∅) "b.txt"
  = Ok (["# my list"; "# Merged on 2024-03-07 09:05 UTC"; ""],
        [("123", "spam"); ("@ann", "")]).
Proof.
  assert (H1 : Forall header_line ["# my list"; "# Merged on 2020-01-01 00:00 UTC"]).
  { constructor; [|constructor; [|constructor]];
      (split; [reflexivity|split; [right; reflexivity|reflexivity]]). }
  assert (H2 : Forall entry_read [("123", "spam"); ("@ann", "")]).
  { repeat constructor; simpl; discriminate. }
  split; [exact H1|]. split; [exact H2|].
  etransitivity;
    [apply (build_contents_read_back
              {| year := 2024; month := 3; day := 7; hour := 9; minute := 5 |}
              _ _ _ "b.txt" H1 H2); apply lookup_insert_eq
    |reflexivity].
Defined.

(** ** More on the merge *)

(** The keys the loop has seen after a list of entries. *)
Lemma merge_loop_app l1 : forall seen merged l2,
  merge_loop seen merged (l1 ++ l2) =
  merge_loop (seen ∪ list_to_set (map (fun e : entry => normalize_entry e.1) l1))
    (merge_loop seen merged l1) l2.
Proof.
  induction l1 as [|[m c] l1 IH]; intros seen merged l2.
  - cbn [app map merge_loop list_to_set]. f_equal. set_solver.
  - cbn [app map merge_loop list_to_set fst]. cbv zeta.
    destruct (decide (normalize_entry m ∈ seen)) as [Hin|Hnin]; rewrite IH; f_equal;
      set_solver.
Qed.

Lemma merge_loop_skip l : forall seen merged,
  (forall e, e ∈ l -> normalize_entry e.1 ∈ seen) -> merge_loop seen merged l = merged.
Proof.
  induction l as [|[m c] l IH]; intros seen merged H; [done|]. cbn [merge_loop]. cbv zeta.
  destruct (decide (normalize_entry m ∈ seen)) as [Hin|Hnin].
  - apply IH. intros e He. apply H. by apply elem_of_cons; right.
  - exfalso. apply Hnin. apply (H (m, c)). by apply elem_of_cons; left.
Qed.

Lemma merge_loop_keep l : forall seen merged,
  NoDup (map fst l) ->
  (forall e, e ∈ l -> normalize_entry e.1 = e.1) ->
  (forall e, e ∈ l -> e.1 ∉ seen) ->
  merge_loop seen merged l = (merged ++ l)%list.
Proof.
  induction l as [|[m c] l IH]; intros seen merged Hnd Hfix Hfresh.
  - by rewrite app_nil_r.
  - cbn [merge_loop]. cbv zeta.
    assert (Hm : normalize_entry m = m) by (apply (Hfix (m, c)); by apply elem_of_cons; left).
    rewrite Hm. cbn [map fst] in Hnd. apply NoDup_cons in Hnd as [Hnin Hnd].
    destruct (decide (m ∈ seen)) as [Hin|_].
    + exfalso. apply (Hfresh (m, c)); [by apply elem_of_cons; left|done].
    + rewrite IH; [by rewrite <- app_assoc|done|..].
      * intros e He. apply Hfix. by apply elem_of_cons; right.
      * intros e He [Heq%elem_of_singleton|Hin]%elem_of_union.
        -- apply Hnin. rewrite <- Heq, map_fmap. apply list_elem_of_fmap. by exists e.
        -- apply (Hfresh e); [by apply elem_of_cons; right|done].
Qed.

(** The stable sort leaves a sorted list as it is. *)
Lemma sort_keyed_sorted_id {A K} (ltb : K -> K -> bool) (l : list (K * A)) :
  StronglySorted (keyed_le ltb) l -> sort_keyed ltb l = l.
Proof.
  induction 1 as [|p l _ IH Hp]; [done|].
  change (sort_keyed ltb (p :: l)) with (insert_keyed ltb p (sort_keyed ltb l)).
  rewrite IH. destruct l as [|q l]; [done|]. cbn [insert_keyed].
  inversion Hp as [|? ? Hpq _]; subst. unfold keyed_le in Hpq. by rewrite Hpq.
Qed.

(** Values stored by a merge of values without leading whitespace are
    their own normal form. *)
Lemma merge_entries_values_fixed old new r :
  (forall e, e ∈ (old ++ new)%list -> lstrip e.1 = e.1) ->
  merge_entries old new = Ok r ->
  forall e, e ∈ r -> normalize_entry e.1 = e.1.
Proof.
  intros Htrim Hr [v c] Hin. cbn [fst].
  apply (merge_entries_first_at old new r v c Hr) in Hin.
  destruct Hin as (pre & e & post & Hl & <- & _ & _).
  apply normalize_entry_idem, Htrim. rewrite Hl.
  apply elem_of_app. right. by apply elem_of_cons; left.
Qed.

Lemma merge_entries_values_iff old new r v :
  merge_entries old new = Ok r ->
  v ∈ map fst r <-> v ∈ map (fun e : entry => normalize_entry e.1) (old ++ new).
Proof.
  intros Hr. apply sorted_perm in Hr.
  rewrite <- merge_loop_values, !map_fmap. by rewrite Hr.
Qed.

Lemma merge_entries_keys_ok old new r :
  merge_entries old new = Ok r -> Forall (fun e => exists k, sort_key e = Ok k) r.
Proof.
  intros Hr. pose proof (sorted_perm _ _ _ _ Hr) as Hp.
  unfold merge_entries in Hr. rewrite sorted_unfold in Hr.
  destruct (mapM (decorate sort_key) _) as [kl|e] eqn:Hkl; [|done].
  apply mapM_ok_all in Hkl. rewrite Hp.
  eapply Forall_impl; [exact Hkl|]. intros e [y Hy]. unfold decorate in Hy.
  destruct (sort_key e) as [k|]; [by exists k|done].
Qed.

(** A list that is already ordered and has all its keys is returned by
    [sorted] as it is. *)
Lemma sorted_sorted_id (r : list entry) :
  StronglySorted entry_le r ->
  Forall (fun e => exists k, sort_key e = Ok k) r ->
  sorted key_ltb sort_key r = Ok r.
Proof.
  intros HS HK. rewrite sorted_unfold.
  assert (Hkl : exists kl, mapM (decorate sort_key) r = Ok kl /\ map snd kl = r /\
                           StronglySorted (keyed_le key_ltb) kl).
  { induction HS as [|e r HS IH He]; [exists []; repeat split; constructor|].
    inversion HK as [|? ? [k Hk] HK']; subst.
    destruct (IH HK') as (kl & Hm & Hs & Hss). exists ((k, e) :: kl).
    cbn [mapM]. unfold decorate at 1. rewrite Hk, Hm. cbn [bind map snd]. rewrite Hs.
    split; [done|]. split; [done|]. constructor; [done|].
    apply mapM_decorate_ok in Hm as [_ HF].
    rewrite Forall_forall in HF. rewrite Forall_forall in He.
    apply Forall_forall. intros [k' e'] Hin. specialize (HF _ Hin). cbn [fst snd] in HF.
    assert (He' : e' ∈ r).
    { rewrite <- Hs, map_fmap. apply list_elem_of_fmap. by exists (k', e'). }
    destruct (He e' He') as (k1 & k2 & H1 & H2 & Hle).
    unfold keyed_le. cbn [fst]. congruence. }
  destruct Hkl as (kl & -> & Hs & Hss). cbn [bind].
  by rewrite (sort_keyed_sorted_id _ _ Hss), Hs.
Qed.

(** X6. The values of a merge result are pairwise different and are
    exactly the normalized values of the two inputs. *)
Theorem merge_entries_values_exact old new r :
  merge_entries old new = Ok r ->
  NoDup (map fst r) /\
  forall v, v ∈ map fst r <-> v ∈ map (fun e : entry => normalize_entry e.1) (old ++ new).
Proof.
  intros Hr. split; [by apply (merge_entries_values_nodup old new)|].
  intros v. by apply merge_entries_values_iff.
Qed.

Lemma merge_entries_values_exact_witness :
  merge_entries [("@Bob", "x"); ("7", "")] [("@bob", "y"); (" 7 ", "z")]
    = Ok [("7", ""); ("@bob", "x")] /\
  NoDup (map fst [("7", ""); ("@bob", "x")]).
Proof.
  assert (H : merge_entries [("@Bob", "x"); ("7", "")] [("@bob", "y"); (" 7 ", "z")]
              = Ok [("7", ""); ("@bob", "x")]) by (vm_compute; reflexivity).
  split; [exact H|]. exact (proj1 (merge_entries_values_exact _ _ _ H)).
Defined.

(** X7. A merge result is ordered by sort key: each entry's key is not
    above the key of any later entry, numbers before strings. *)
Theorem merge_entries_ordered old new r :
  merge_entries old new = Ok r ->
  StronglySorted entry_le r /\
  forall i j e1 e2 n s,
    r !! i = Some e1 -> r !! j = Some e2 ->
    sort_key e1 = Ok (KNum n) -> sort_key e2 = Ok (KStr s) -> i < j.
Proof.
  intros Hr. pose proof (merge_entries_sorted old new r Hr) as HS. split; [done|].
  intros i j e1 e2 n s Hi Hj H1 H2.
  destruct (decide (i < j)) as [|Hge]; [done|]. exfalso.
  assert (Hij : j < i).
  { destruct (decide (i = j)) as [->|]; [|lia]. congruence. }
  assert (Hle : entry_le e2 e1).
  { clear Hr. revert i j Hi Hj Hij Hge. induction HS as [|e r HS IH He]; intros i j Hi Hj Hij _.
    - done.
    - destruct j as [|j]; destruct i as [|i]; try lia; cbn in Hi, Hj.
      + injection Hj as ->. rewrite Forall_forall in He. apply He.
        by apply list_elem_of_lookup_2 in Hi.
      + apply (IH i j); [done..|lia|lia]. }
  destruct Hle as (k2 & k1 & Hk2 & Hk1 & Hle).
  rewrite H2 in Hk2. rewrite H1 in Hk1. injection Hk1 as <-. injection Hk2 as <-.
  done.
Qed.

Lemma merge_entries_ordered_witness :
  merge_entries [("@zed", ""); ("10", "")] [("-3", ""); ("@amy", "")]
    = Ok [("-3", ""); ("10", ""); ("@amy", ""); ("@zed", "")] /\
  StronglySorted entry_le [("-3", ""); ("10", ""); ("@amy", ""); ("@zed", "")].
Proof.
  assert (H : merge_entries [("@zed", ""); ("10", "")] [("-3", ""); ("@amy", "")]
              = Ok [("-3", ""); ("10", ""); ("@amy", ""); ("@zed", "")])
    by (vm_compute; reflexivity).
  split; [exact H|]. exact (proj1 (merge_entries_ordered _ _ _ H)).
Defined.

(** X8. [merge_entries] raises exactly when some normalized value is, once
    every leading ['-'] is stripped, a run of digits that [int] refuses;
    the exception is then [ValueError]. *)
Theorem merge_entries_raises_iff old new :
  (exists e, merge_entries old new = Raise e) <->
  (exists x, x ∈ map (fun en : entry => normalize_entry en.1) (old ++ new) /\
             isdigit (lstrip_char "-" x) = true /\ int x = Raise ValueError).
Proof.
  split.
  - intros [e He]. by apply merge_entries_raises in He as [_ ?].
  - intros (x & Hx & Hd & Hi).
    destruct (merge_entries old new) as [r|e] eqn:Hr; [|by exists e]. exfalso.
    apply (merge_entries_values_iff old new r x Hr) in Hx.
    rewrite map_fmap in Hx. apply list_elem_of_fmap in Hx as ([x' c] & -> & Hin).
    pose proof (merge_entries_keys_ok old new r Hr) as HK.
    rewrite Forall_forall in HK. destruct (HK _ Hin) as [k Hk].
    unfold sort_key in Hk. cbn [fst] in *. rewrite Hd, Hi in Hk. done.
Qed.

(** X9. Incoming entries whose normalized values are all among those of
    the old entries change nothing: the result is that of the old entries
    alone. *)
Theorem merge_entries_absorb old new :
  (forall e, e ∈ new ->
     normalize_entry e.1 ∈ map (fun en : entry => normalize_entry en.1) old) ->
  merge_entries old new = merge_entries old [].
Proof.
  intros H. unfold merge_entries. rewrite app_nil_r, merge_loop_app.
  rewrite merge_loop_skip; [done|].
  intros e He. apply elem_of_union_r, elem_of_list_to_set. by apply H.
Qed.

Lemma merge_entries_absorb_witness :
  merge_entries [("@Bob", "x"); ("7", "")] [("@BOB", "again"); ("7 ", "")]
  = merge_entries [("@Bob", "x"); ("7", "")] [].
Proof.
  apply merge_entries_absorb. intros e He.
  apply list_elem_of_In in He. simpl in He.
  destruct He as [<-|[<-|[]]]; apply list_elem_of_In; vm_compute; auto.
Defined.

(** X10. Merging the result of a merge with the same incoming entries
    again returns that result unchanged, when no value of the inputs begins
    with whitespace. *)
Theorem merge_entries_rerun old new r :
  (forall e, e ∈ (old ++ new)%list -> lstrip e.1 = e.1) ->
  merge_entries old new = Ok r ->
  merge_entries r new = Ok r.
Proof.
  intros Htrim Hr.
  pose proof (merge_entries_values_fixed old new r Htrim Hr) as Hfix.
  pose proof (merge_entries_values_nodup old new r Hr) as Hnd.
  unfold merge_entries. rewrite merge_loop_app.
  rewrite (merge_loop_keep r ∅ [] Hnd Hfix) by (intros; apply not_elem_of_empty).
  cbn [app]. rewrite merge_loop_skip.
  - apply sorted_sorted_id; [by apply (merge_entries_sorted old new)|].
    by apply (merge_entries_keys_ok old new).
  - intros e He. apply elem_of_union_r, elem_of_list_to_set.
    assert (Hv : normalize_entry e.1 ∈ map fst r).
    { apply (merge_entries_values_iff old new r _ Hr).
      rewrite map_app, elem_of_app. right.
      rewrite map_fmap. apply list_elem_of_fmap. by exists e. }
    rewrite map_fmap in Hv. apply list_elem_of_fmap in Hv as (e' & Heq & He').
    rewrite map_fmap. apply list_elem_of_fmap. exists e'. split; [|done].
    rewrite Heq. symmetry. by apply Hfix.
Qed.

Lemma merge_entries_rerun_witness :
  merge_entries [("@Bob", "x"); ("7", "")] [("@bob", "y"); ("10", "z")]
    = Ok [("7", ""); ("10", "z"); ("@bob", "x")] /\
  merge_entries [("7", ""); ("10", "z"); ("@bob", "x")] [("@bob", "y"); ("10", "z")]
    = Ok [("7", ""); ("10", "z"); ("@bob", "x")].
Proof.
  assert (H : merge_entries [("@Bob", "x"); ("7", "")] [("@bob", "y"); ("10", "z")]
              = Ok [("7", ""); ("10", "z"); ("@bob", "x")]) by (vm_compute; reflexivity).
  split; [exact H|]. apply (merge_entries_rerun _ _ _) in H; [exact H|].
  intros e He. apply list_elem_of_In in He. simpl in He.
  destruct He as [<-|[<-|[<-|[<-|[]]]]]; reflexivity.
Defined.

(** ** Values the validator accepts, in the merge *)

Lemma span_spec f s a b :
  span f s = (a, b) -> s = a ++ b /\ forallb_str f a = true.
Proof.
  revert a. induction s as [|c s IH]; intros a; cbn [span].
  - by intros [= <- <-].
  - destruct (f c) eqn:Hc; [|by intros [= <- <-]].
    destruct (span f s) as [a' b']. intros [= <- <-].
    destruct (IH a' eq_refl) as [-> Ha]. rewrite append_cons. cbn [forallb_str].
    by rewrite Hc, Ha.
Qed.

Lemma at_dollar_cases rest : at_dollar rest = true -> rest = "" \/ rest = newline.
Proof.
  destruct rest as [|c [|d r]]; [by left| |].
  - destruct c as [[] [] [] [] [] [] [] []]; try discriminate. by right.
  - destruct c as [[] [] [] [] [] [] [] []]; discriminate.
Qed.

Lemma at_dollar_spaces rest : at_dollar rest = true -> forallb_str isspace rest = true.
Proof. by intros [->| ->]%at_dollar_cases. Qed.

Lemma isdecimal_isdigit_char c : isdecimal_char c = true -> isdigit_char c = true.
Proof. unfold isdigit_char, isdecimal_char. by intros ->. Qed.

Lemma isdecimal_not_space c : isdecimal_char c = true -> isspace c = false.
Proof. destruct c as [[] [] [] [] [] [] [] []]; vm_compute; congruence. Qed.

Lemma isdecimal_isdigit w :
  w <> "" -> forallb_str isdecimal_char w = true -> isdigit w = true.
Proof.
  intros Hne Hw. unfold isdigit. destruct w as [|c w]; [done|]. cbn [nonempty andb].
  clear Hne. induction (String c w) as [|d s IH]; [done|]. cbn [forallb_str] in *.
  apply andb_true_iff in Hw as [Hd Hs]. by rewrite (isdecimal_isdigit_char d Hd), IH.
Qed.

Lemma rstrip_decimal w : forallb_str isdecimal_char w = true -> rstrip w = w.
Proof.
  induction w as [|c w IH]; [done|]. cbn [forallb_str rstrip].
  intros [Hc Hw]%andb_true_iff. rewrite (IH Hw).
  destruct w; [|done]. by rewrite (isdecimal_not_space c Hc).
Qed.

Lemma strip_decimal w : forallb_str isdecimal_char w = true -> strip w = w.
Proof.
  intros Hw. unfold strip. destruct w as [|c w]; [done|].
  cbn [forallb_str] in Hw. pose proof Hw as [Hc _]%andb_true_iff.
  cbn [lstrip]. rewrite (isdecimal_not_space c Hc). by apply rstrip_decimal.
Qed.

Lemma strip_dash_decimal w :
  w <> "" -> forallb_str isdecimal_char w = true -> strip (String "-" w) = String "-" w.
Proof.
  intros Hne Hw. unfold strip. change (lstrip (String "-" w)) with (String "-" w).
  cbn [rstrip]. rewrite (rstrip_decimal w Hw). by destruct w.
Qed.

Lemma int_digits_decimal w : forall acc prev,
  forallb_str isdecimal_char w = true -> prev = true \/ w <> "" ->
  exists n, int_digits acc prev w = Some n.
Proof.
  induction w as [|c w IH]; intros acc prev Hw Hp; cbn [int_digits].
  - destruct Hp as [->|]; [by exists acc|done].
  - cbn [forallb_str] in Hw. apply andb_true_iff in Hw as [Hc Hw]. rewrite Hc.
    apply IH; [done|by left].
Qed.

Lemma int_sign_decimal c r :
  isdecimal_char c = true ->
  match String c r with
  | String "-" r0 => ((-1)%Z, r0)
  | String "+" r0 => (1%Z, r0)
  | _ => (1%Z, String c r)
  end = (1%Z, String c r).
Proof. destruct c as [[] [] [] [] [] [] [] []]; try discriminate; reflexivity. Qed.

Lemma count_decimal_append a b :
  count_decimal (a ++ b) = (count_decimal a + count_decimal b)%N.
Proof.
  induction a as [|c a IH]; [done|]. rewrite append_cons. cbn [count_decimal].
  rewrite IH. destruct (isdecimal_char c); lia.
Qed.

Lemma count_decimal_at_dollar rest : at_dollar rest = true -> count_decimal rest = 0%N.
Proof. by intros [->| ->]%at_dollar_cases. Qed.

Lemma int_decimal w :
  w <> "" -> forallb_str isdecimal_char w = true ->
  (count_decimal w <= max_str_digits)%N ->
  (exists n, int w = Ok n) /\ (exists n, int (String "-" w) = Ok n).
Proof.
  intros Hne Hw Hcap. apply N.leb_le in Hcap.
  destruct (int_digits_decimal w 0 false Hw (or_intror Hne)) as [n Hn].
  split.
  - unfold int. rewrite (strip_decimal w Hw). destruct w as [|c w]; [done|].
    cbn [forallb_str] in Hw. pose proof Hw as [Hc _]%andb_true_iff.
    rewrite (int_sign_decimal c w Hc), Hn, Hcap. by eexists.
  - unfold int. rewrite (strip_dash_decimal w Hne Hw). rewrite Hn, Hcap. by eexists.
Qed.

Lemma sort_key_at v c :
  startswith "@" v = true -> exists k, sort_key (normalize_entry v, c) = Ok k.
Proof.
  intros Hat. unfold normalize_entry. rewrite Hat.
  destruct v as [|x v]; [done|]. cbn [startswith] in Hat.
  apply andb_true_iff in Hat as [Hx%Ascii.eqb_eq _]. subst x.
  unfold strip. change (lstrip (String "@" v)) with (String "@" v).
  destruct (rstrip_head "@" v eq_refl) as [z ->].
  by exists (KStr (lower (lower (String "@" z)))).
Qed.

Lemma ID_RE_shape v :
  ID_RE v = true ->
  exists w rest, forallb_str isdecimal_char w = true /\ w <> "" /\
                 at_dollar rest = true /\ strip_one_dash v = w ++ rest.
Proof.
  unfold ID_RE. change (match v with String "-" r => r | _ => v end) with (strip_one_dash v).
  destruct (span isdecimal_char (strip_one_dash v)) as [w rest] eqn:Hs.
  intros [Hw Hr]%andb_true_iff. apply span_spec in Hs as [Hv Hd].
  exists w, rest. repeat split; [done|by apply nonempty_true|done..].
Qed.

Lemma lstrip_dash_decimal w :
  w <> "" -> forallb_str isdecimal_char w = true -> lstrip_char "-" w = w.
Proof. intros Hne Hw. apply isdigit_lstrip_dash. by apply isdecimal_isdigit. Qed.

Lemma sort_key_id v c :
  startswith "@" v = false -> ID_RE v = true ->
  (count_decimal v <= max_str_digits)%N ->
  exists k, sort_key (normalize_entry v, c) = Ok k.
Proof.
  intros Hat Hid Hcap. unfold normalize_entry. rewrite Hat.
  destruct (ID_RE_shape v Hid) as (w & rest & Hw & Hne & Hr & Hv).
  assert (Hcw : (count_decimal w <= max_str_digits)%N).
  { pose proof (count_decimal_at_dollar rest Hr) as Hr0.
    destruct v as [|x v]; [by destruct w|]. rewrite strip_one_dash_cons in Hv.
    cbn [count_decimal] in Hcap. destruct (Ascii.eqb x "-").
    - subst v. rewrite count_decimal_append, Hr0 in Hcap.
      destruct (isdecimal_char x); lia.
    - change (if isdecimal_char x then N.succ (count_decimal v) else count_decimal v)
        with (count_decimal (String x v)) in Hcap.
      rewrite Hv, count_decimal_append, Hr0 in Hcap. lia. }
  apply at_dollar_spaces in Hr.
  destruct (int_decimal w Hne Hw Hcw) as [[n Hn] [n' Hn']].
  destruct v as [|x v]; [by destruct w|]. rewrite strip_one_dash_cons in Hv.
  destruct (Ascii.eqb_spec x "-") as [->|_].
  - subst v. change (String "-" (w ++ rest)) with (String "-" w ++ rest).
    rewrite (strip_append_spaces _ rest (strip_dash_decimal w Hne Hw) Hr).
    unfold sort_key. cbn [fst lstrip_char]. change (Ascii.eqb "-" "-") with true. cbv iota.
    rewrite (lstrip_dash_decimal w Hne Hw), (isdecimal_isdigit w Hne Hw), Hn'.
    by eexists.
  - rewrite Hv, (strip_append_spaces _ rest (strip_decimal w Hw) Hr).
    unfold sort_key. cbn [fst].
    rewrite (lstrip_dash_decimal w Hne Hw), (isdecimal_isdigit w Hne Hw), Hn.
    by eexists.
Qed.

Lemma USERNAME_RE_at v : USERNAME_RE v = true -> startswith "@" v = true.
Proof.
  destruct v as [|c v]; [done|].
  destruct c as [[] [] [] [] [] [] [] []]; try discriminate. reflexivity.
Qed.

Lemma valid_value_sort_key v c :
  valid_value v -> (count_decimal v <= max_str_digits)%N ->
  exists k, sort_key (normalize_entry v, c) = Ok k.
Proof.
  unfold valid_value. intros Hv Hcap. destruct (startswith "@" v) eqn:Hat.
  - by apply sort_key_at.
  - apply sort_key_id; [done| |done]. apply orb_true_iff in Hv as [Hu|Hi]; [|done].
    apply USERNAME_RE_at in Hu. congruence.
Qed.

Lemma merge_entries_valid_ok old new :
  (forall e, e ∈ (old ++ new)%list ->
     valid_value e.1 /\ (count_decimal e.1 <= max_str_digits)%N) ->
  exists r, merge_entries old new = Ok r.
Proof.
  intros Hv. destruct (merge_entries old new) as [r|e] eqn:Hr; [by exists r|]. exfalso.
  apply merge_entries_raises in Hr as (_ & x & Hx & Hd & Hi).
  rewrite map_fmap in Hx. apply list_elem_of_fmap in Hx as (en & -> & Hin).
  destruct (Hv en Hin) as [Hvalid Hcap].
  destruct (valid_value_sort_key en.1 "" Hvalid Hcap) as [k Hk].
  unfold sort_key in Hk. cbn [fst] in Hk. by rewrite Hd, Hi in Hk.
Qed.

(** X11. Values that the validator's grammars accept and that have no more
    digits than [int] converts never make the merge raise: when every
    value of the inputs matches the username grammar or the integer grammar
    and has at most 4300 digits, [merge_entries] returns a list.  The
    bound is needed: a value of 4301 digits matches the integer grammar
    and makes [merge_entries] raise. *)
Theorem merge_entries_valid_returns :
  (forall old new,
     (forall e, e ∈ (old ++ new)%list ->
        valid_value e.1 /\ (count_decimal e.1 <= max_str_digits)%N) ->
     exists r, merge_entries old new = Ok r) /\
  valid_value (zeros 4301) /\
  merge_entries [] [(zeros 4301, "")] = Raise ValueError.
Proof.
  split; [apply merge_entries_valid_ok|]. split; vm_compute; reflexivity.
Qed.

Lemma merge_entries_valid_returns_witness :
  exists r, merge_entries [("@alice_1", ""); ("-100", "chat")] [("42", ""); ("@Bobby", "")]
            = Ok r.
Proof.
  apply (proj1 merge_entries_valid_returns). intros e He.
  apply list_elem_of_In in He. simpl in He.
  destruct He as [<-|[<-|[<-|[<-|[]]]]]; (split; [reflexivity|vm_compute; discriminate]).
Defined.

(** ** More on the validator *)

Lemma validate_nil_iff lines :
  validate lines = [] <->
  forall k raw m, lines !! k = Some raw -> main_part raw = Some m ->
    valid_value m /\ lower m ∉ keys_of (take k lines).
Proof.
  split.
  - intros Hnil k raw m Hk Hm.
    assert (Hno : forall v, ~ reported ∅ lines 1 v).
    { intros v Hv. apply validate_spec in Hv. rewrite Hnil in Hv. by apply elem_of_nil in Hv. }
    assert (Hfresh : lower m ∉ keys_of (take k lines)).
    { intros Hin. apply (Hno (S k, strip raw, Duplicate)).
      exists k, raw, m. cbn [fst snd]. repeat split; [done..|]. left. split; [done|].
      by apply elem_of_union_r. }
    split; [|done]. unfold valid_value.
    destruct (USERNAME_RE m) eqn:Hu; [done|]. destruct (ID_RE m) eqn:Hi; [done|].
    exfalso. apply (Hno (S k, strip raw, InvalidFormat)).
    exists k, raw, m. cbn [fst snd]. repeat split; [done..|]. right.
    repeat split; [|done..]. by intros [Hin|Hin]%elem_of_union; [apply elem_of_empty in Hin|].
  - intros H. destruct (validate lines) as [|v errs] eqn:Hv; [done|]. exfalso.
    assert (Hin : v ∈ validate lines) by (rewrite Hv; by apply elem_of_cons; left).
    apply validate_spec in Hin as (k & raw & m & _ & Hk & _ & Hm & Hr).
    destruct (H k raw m Hk Hm) as [Hvalid Hfresh].
    destruct Hr as [[_ [Hin|Hin]%elem_of_union]|(_ & _ & Hu & Hi)].
    + by apply elem_of_empty in Hin.
    + done.
    + unfold valid_value in Hvalid. by rewrite Hu, Hi in Hvalid.
Qed.

(** X12. [validate] returns no violation exactly when every retained line
    matches one of the two grammars and has a key that no earlier retained
    line has. *)
Theorem validate_accepts_iff lines :
  validate lines = [] <->
  forall k raw m, lines !! k = Some raw -> main_part raw = Some m ->
    valid_value m /\ lower m ∉ keys_of (take k lines).
Proof. apply validate_nil_iff. Qed.

Lemma validate_loop_numbers lines : forall i seen errors,
  StronglySorted lt (map (fun v : violation => v.1.1) errors) ->
  Forall (fun n => n < i) (map (fun v : violation => v.1.1) errors) ->
  StronglySorted lt (map (fun v : violation => v.1.1) (validate_loop i seen errors lines)).
Proof.
  induction lines as [|raw rest IH]; intros i seen errors HS HF; [done|].
  assert (HF' : Forall (fun n => n < S i) (map (fun v : violation => v.1.1) errors)).
  { eapply Forall_impl; [exact HF|]. intros n Hn. simpl in Hn. lia. }
  assert (Hadd : forall l r,
    StronglySorted lt (map (fun v : violation => v.1.1) (errors ++ [(i, l, r)])) /\
    Forall (fun n => n < S i) (map (fun v : violation => v.1.1) (errors ++ [(i, l, r)]))).
  { intros l r. rewrite map_app. cbn [map fst]. split.
    - apply StronglySorted_app_2; [|done|repeat constructor].
      intros x1 x2 Hx1 ->%list_elem_of_singleton.
      rewrite Forall_forall in HF. by apply HF.
    - apply Forall_app. split; [done|]. repeat constructor. }
  rewrite validate_loop_cons. destruct (main_part raw) as [m|]; [|by apply IH].
  destruct (decide (lower m ∈ seen)); [apply IH; apply Hadd|].
  destruct (USERNAME_RE m || ID_RE m); [by apply IH|apply IH; apply Hadd].
Qed.

(** X13. Every violation names an existing line by its number, counted
    from one, and carries that line stripped, which is neither empty nor a
    comment; the violations come in increasing line order, at most one for
    a line. *)
Theorem validate_violations_located lines :
  (forall n l r, (n, l, r) ∈ validate lines ->
     exists raw, 1 <= n /\ lines !! (n - 1) = Some raw /\ l = strip raw /\
                 l <> "" /\ startswith "#" l = false) /\
  StronglySorted lt (map (fun v : violation => v.1.1) (validate lines)).
Proof.
  split.
  - intros n l r Hin. apply validate_spec in Hin.
    destruct Hin as (k & raw & m & Hn & Hk & Hl & Hm & _). cbn [fst snd] in *. subst n l.
    exists raw. replace (1 + k - 1) with k by lia. repeat split; [lia|done|..].
    + unfold main_part in Hm. by destruct (strip raw).
    + unfold main_part in Hm. destruct (negb (nonempty (strip raw))); [done|].
      cbn [orb] in Hm. by destruct (startswith "#" (strip raw)).
  - apply validate_loop_numbers; constructor.
Qed.

(** ** The validator on a written file *)

Lemma split_main_fst s : (split_main_and_comment s).1 = strip (before_hash s).
Proof.
  unfold split_main_and_comment, before_hash. by destruct (partition "#" s) as [[a b]|].
Qed.

Lemma main_part_header h : header_line h -> main_part h = None.
Proof.
  intros (Hr & [->|Hh] & _); [reflexivity|]. unfold main_part.
  assert (Hs : strip h = h).
  { unfold strip. destruct h as [|c h]; [done|]. cbn [startswith] in Hh.
    apply andb_true_iff in Hh as [Hc%Ascii.eqb_eq _]. subst c.
    change (lstrip (String "#" h)) with (String "#" h). exact Hr. }
  cbv zeta. rewrite Hs, Hh. by rewrite orb_true_r.
Qed.

Lemma strip_render e : entry_read e -> strip (render_entry e) = render_entry e.
Proof.
  intros He. destruct (entry_read_render e He) as (_ & _ & Hr & _).
  unfold strip. assert (Hl : lstrip (render_entry e) = render_entry e); [|by rewrite Hl].
  destruct e as [m c]. destruct He as (Hne & Hm & _). cbn [fst snd] in *.
  destruct (strip_fixed _ Hm) as [Hlm _]. unfold render_entry.
  destruct (nonempty c); [by apply lstrip_append|done].
Qed.

Lemma main_part_render e : entry_read e -> main_part (render_entry e) = Some e.1.
Proof.
  intros He. destruct (entry_read_render e He) as (Hne & _ & _ & Hh).
  unfold main_part. cbv zeta. rewrite (strip_render e He), Hh.
  apply nonempty_true in Hne. rewrite Hne. cbn [negb orb].
  rewrite <- split_main_fst. destruct e as [m c].
  destruct He as (Hm0 & Hm & Hnh & Hc & _). cbn [fst snd] in *.
  rewrite (split_main_and_comment_render m c Hm Hnh Hc). cbn [fst].
  apply nonempty_true in Hm0. by rewrite Hm0.
Qed.

Lemma keys_of_app l1 l2 : keys_of (l1 ++ l2) = keys_of l1 ∪ keys_of l2.
Proof.
  induction l1 as [|raw l1 IH]; cbn [app keys_of]; [set_solver|].
  rewrite IH. destruct (main_part raw); set_solver.
Qed.

Lemma keys_of_header hs : Forall header_line hs -> keys_of hs = ∅.
Proof.
  induction 1 as [|h hs Hh _ IH]; [done|]. cbn [keys_of].
  by rewrite (main_part_header h Hh).
Qed.

Lemma keys_of_rendered entries :
  Forall entry_read entries ->
  keys_of (map render_entry entries)
  = list_to_set (map (fun e : entry => lower e.1) entries).
Proof.
  induction 1 as [|e entries He _ IH]; [done|]. cbn [map keys_of list_to_set].
  by rewrite (main_part_render e He), IH.
Qed.

Lemma validate_rendered hs entries :
  Forall header_line hs -> Forall entry_read entries ->
  Forall (fun e : entry => valid_value e.1) entries ->
  NoDup (map (fun e : entry => lower e.1) entries) ->
  validate (hs ++ map render_entry entries) = [].
Proof.
  intros Hh He Hv Hnd. apply validate_nil_iff. intros k raw m Hk Hm.
  destruct (decide (k < length hs)) as [Hlt|Hge].
  - rewrite lookup_app_l in Hk by done. apply list_elem_of_lookup_2 in Hk.
    rewrite Forall_forall in Hh. rewrite (main_part_header raw (Hh raw Hk)) in Hm. done.
  - rewrite lookup_app_r in Hk by lia. set (j := k - length hs) in *.
    rewrite map_fmap, list_lookup_fmap in Hk.
    destruct (entries !! j) as [e|] eqn:Hj; [|done]. injection Hk as <-.
    assert (Hin : e ∈ entries) by (by apply list_elem_of_lookup_2 in Hj).
    rewrite Forall_forall in He. rewrite Forall_forall in Hv.
    rewrite (main_part_render e (He e Hin)) in Hm. injection Hm as <-.
    split; [by apply Hv|].
    replace k with (length hs + j) by lia. rewrite take_app_add', keys_of_app by done.
    rewrite (keys_of_header hs Hh). rewrite map_fmap, <- fmap_take, <- map_fmap.
    rewrite keys_of_rendered.
    2:{ apply Forall_forall. intros x (i & Hi & _)%elem_of_take.
        apply He. by apply list_elem_of_lookup_2 in Hi. }
    intros [Hx|Hx]%elem_of_union; [by apply elem_of_empty in Hx|].
    apply elem_of_list_to_set in Hx.
    rewrite <- (take_drop_middle entries j e Hj), map_app in Hnd.
    apply NoDup_app in Hnd as (_ & Hdis & _). apply (Hdis _ Hx).
    cbn [map]. by apply elem_of_cons; left.
Qed.

Lemma validate_rendered_text now header entries :
  Forall header_line header -> Forall entry_read entries ->
  Forall (fun e : entry => valid_value e.1) entries ->
  NoDup (map (fun e : entry => lower e.1) entries) ->
  validate (splitlines (build_contents now header entries)) = [].
Proof.
  intros Hh He Hv Hnd. rewrite (build_contents_splitlines now header entries Hh He).
  pose proof (header_out_header_line now header Hh) as Hout.
  destruct entries as [|e entries].
  - rewrite app_nil_r.
    rewrite <- (app_nil_r (_ ++ [gen_line now])%list).
    by apply (validate_rendered _ []).
  - replace ((List.filter (fun h => negb (startswith merged_on h)) header ++ [gen_line now])
             ++ "" :: map render_entry (e :: entries))%list
      with (((List.filter (fun h => negb (startswith merged_on h)) header ++ [gen_line now])
             ++ [""]) ++ map render_entry (e :: entries))%list
      by (by rewrite <- app_assoc).
    apply validate_rendered; [|done..].
    apply Forall_app. split; [done|]. by repeat constructor.
Qed.

(** X14. The text [build_contents] writes passes [validate] when its
    header and entries are as [read_file] keeps them, every value matches
    one of the two grammars, and no two values are equal up to case. *)
Theorem build_contents_validates now header entries :
  Forall header_line header -> Forall entry_read entries ->
  Forall (fun e : entry => valid_value e.1) entries ->
  NoDup (map (fun e : entry => lower e.1) entries) ->
  validate (splitlines (build_contents now header entries)) = [].
Proof. apply validate_rendered_text. Qed.

Lemma build_contents_validates_witness :
  Forall header_line ["# my list"] /\
  Forall entry_read [("-100", "chat"); ("@alice_1", "")] /\
  Forall (fun e : entry => valid_value e.1) [("-100", "chat"); ("@alice_1", "")] /\
  NoDup (map (fun e : entry => lower e.1) [("-100", "chat"); ("@alice_1", "")]) /\
  validate (splitlines
    (build_contents {| year := 2024; month := 3; day := 7; hour := 9; minute := 5 |}
       ["# my list"] [("-100", "chat"); ("@alice_1", "")])) = [].
Proof.
  assert (H1 : Forall header_line ["# my list"]).
  { constructor; [|constructor]. split; [reflexivity|split; [right; reflexivity|reflexivity]]. }
  assert (H2 : Forall entry_read [("-100", "chat"); ("@alice_1", "")]).
  { repeat constructor; simpl; discriminate. }
  assert (H3 : Forall (fun e : entry => valid_value e.1) [("-100", "chat"); ("@alice_1", "")]).
  { repeat constructor. }
  assert (H4 : NoDup (map (fun e : entry => lower e.1) [("-100", "chat"); ("@alice_1", "")])).
  { apply NoDup_cons. split; [|apply NoDup_singleton].
    intros Hx%list_elem_of_singleton. vm_compute in Hx. discriminate. }
  repeat (split; [assumption|]).
  exact (build_contents_validates _ _ _ H1 H2 H3 H4).
Defined.

(** ** Reading, merging and writing, as [main] chains them *)

Lemma lower_char_hash c : Ascii.eqb (lower_char c) "#" = Ascii.eqb c "#".
Proof. destruct c as [[] [] [] [] [] [] [] []]; vm_compute; reflexivity. Qed.

Lemma lower_char_linebreak c : islinebreak (lower_char c) = islinebreak c.
Proof. destruct c as [[] [] [] [] [] [] [] []]; vm_compute; reflexivity. Qed.

Lemma forallb_str_lower f s :
  (forall c, f (lower_char c) = f c) -> forallb_str f (lower s) = forallb_str f s.
Proof.
  intros Hf. induction s as [|c s IH]; [done|]. cbn [lower forallb_str].
  by rewrite Hf, IH.
Qed.

Lemma normalize_entry_read v c : entry_read (v, c) -> entry_read (normalize_entry v, c).
Proof.
  intros (Hne & Hs & Hh & Hc & Hbv & Hbc). cbn [fst snd] in *.
  unfold normalize_entry. rewrite Hs.
  destruct (startswith "@" v); [|by repeat split].
  split; [by destruct v|]. split; [by cbn [fst]; rewrite strip_lower, Hs|].
  split; [|split; [done|split; [|done]]]; cbn [fst].
  - unfold no_hash in *. rewrite forallb_str_lower; [done|].
    intros x. by rewrite lower_char_hash.
  - unfold no_break in *. rewrite forallb_str_lower; [done|].
    intros x. by rewrite lower_char_linebreak.
Qed.

Lemma merge_entries_entry_read old new r :
  Forall entry_read (old ++ new) -> merge_entries old new = Ok r -> Forall entry_read r.
Proof.
  intros Hin Hr. apply Forall_forall. intros [v c] He.
  apply (merge_entries_first_at old new r v c Hr) in He.
  destruct He as (pre & [x cx] & post & Hl & <- & <- & _). cbn [fst snd].
  apply normalize_entry_read. rewrite Forall_forall in Hin. apply Hin.
  rewrite Hl. apply elem_of_app. right. by apply elem_of_cons; left.
Qed.

Lemma entry_read_plain e : entry_read e -> plain_entry e.
Proof.
  intros (Hne & _ & Hh & _ & Hbv & Hbc).
  split; [by apply no_break_no_lf|]. split; [by apply no_break_no_lf|]. split; [done|].
  destruct e as [[|x m] c]; [done|]. cbn [fst] in *. unfold no_hash in Hh.
  cbn [forallb_str] in Hh. apply andb_true_iff in Hh as [Hx _].
  apply negb_true_iff in Hx. cbn [startswith]. by rewrite Ascii.eqb_sym, Hx.
Qed.

(** The text written from a header and entries as [read_file] keeps them. *)
Lemma build_contents_wf now header entries :
  Forall header_line header -> Forall entry_read entries ->
  marker_lines (build_contents now header entries) = 1 /\
  trailing_lf (build_contents now header entries) = 1.
Proof.
  intros Hh He. rewrite (build_contents_lines now header entries He).
  set (hf := List.filter (fun h => negb (startswith merged_on h)) header).
  assert (Hplain : Forall plain_entry entries).
  { eapply Forall_impl; [exact He|]. apply entry_read_plain. }
  assert (Hhf : Forall no_lf (hf ++ [gen_line now])%list).
  { eapply Forall_impl; [by apply (header_out_header_line now header)|].
    intros h (_ & _ & Hb). by apply no_break_no_lf. }
  assert (Hr : Forall no_lf (map render_entry entries)).
  { eapply Forall_impl; [by apply Forall_no_break_rendered|]. apply no_break_no_lf. }
  split.
  - unfold marker_lines.
    replace (join newline ((hf ++ [gen_line now])
               ++ match entries with [] => [] | _ => "" :: map render_entry entries end)
             ++ newline)
      with (join newline ((hf ++ [gen_line now])
               ++ match entries with [] => [] | _ => "" :: map render_entry entries end)
            ++ newline ++ "") by done.
    rewrite split_lf_append, split_lf_join.
    + rewrite !List.filter_app, !length_app. unfold hf.
      rewrite filter_marker_filtered. cbn [List.filter app].
      rewrite gen_line_marker. destruct entries as [|e entries]; [done|].
      cbn [List.filter]. change (startswith merged_on "") with false. cbv iota.
      by rewrite (filter_marker_rendered _ Hplain).
    + by destruct hf.
    + apply Forall_app. split; [done|]. destruct entries; [constructor|].
      by constructor.
  - destruct entries as [|e entries].
    + rewrite app_nil_r. destruct (join_ends newline hf (gen_line now)) as [p ->].
      apply trailing_lf_one; [|done].
      apply no_break_no_lf, no_break_gen_line.
    + destruct (exists_last (l := e :: entries)) as (init & z & Hz); [done|].
      rewrite Hz, map_app. cbn [map].
      replace ((hf ++ [gen_line now]) ++ "" :: map render_entry init ++ [render_entry z])%list
        with (((hf ++ [gen_line now]) ++ "" :: map render_entry init) ++ [render_entry z])%list
        by (by rewrite <- app_assoc).
      destruct (join_ends newline ((hf ++ [gen_line now]) ++ "" :: map render_entry init)
                  (render_entry z)) as [p ->].
      rewrite Hz in He. apply Forall_app in He as [_ He]. inversion He as [|? ? Hze _]; subst.
      destruct (entry_read_render z Hze) as (Hne & Hb & _).
      apply trailing_lf_one; [by apply no_break_no_lf|done].
Qed.

Lemma read_file_wf (fs : gmap string node) path header entries :
  read_file fs path = Ok (header, entries) ->
  Forall header_line header /\ Forall entry_read entries.
Proof.
  unfold read_file. destruct (fs !! path) as [[text|]|]; [|done|].
  - intros [= H].
    destruct (read_loop_inv (splitlines text) [] [] false) as [Hh He];
      [apply splitlines_no_break|constructor..|]. by rewrite H in Hh, He.
  - intros [= <- <-]. split; constructor.
Qed.

Lemma entry_read_lstrip e : entry_read e -> lstrip e.1 = e.1.
Proof. intros (_ & Hs & _). by apply strip_fixed in Hs as [? _]. Qed.

Lemma isword_lower_char c : isword_char (lower_char c) = isword_char c.
Proof. destruct c as [[] [] [] [] [] [] [] []]; vm_compute; reflexivity. Qed.

Lemma lower_char_decimal c : isdecimal_char c = true -> lower_char c = c.
Proof. destruct c as [[] [] [] [] [] [] [] []]; vm_compute; congruence. Qed.

Lemma span_lower f s :
  (forall c, f (lower_char c) = f c) ->
  span f (lower s) = (lower (span f s).1, lower (span f s).2).
Proof.
  intros Hf. induction s as [|c s IH]; [done|]. cbn [lower span]. rewrite Hf.
  destruct (f c); [|done]. rewrite IH. by destruct (span f s).
Qed.

Lemma length_lower s : String.length (lower s) = String.length s.
Proof. induction s as [|c s IH]; [done|]. cbn [lower String.length]. by rewrite IH. Qed.

Lemma lower_append a b : lower (a ++ b) = lower a ++ lower b.
Proof.
  induction a as [|c a IH]; [done|]. rewrite append_cons. cbn [lower].
  by rewrite IH, append_cons.
Qed.

Lemma lower_decimal w : forallb_str isdecimal_char w = true -> lower w = w.
Proof.
  induction w as [|c w IH]; [done|]. cbn [forallb_str lower].
  intros [Hc Hw]%andb_true_iff. by rewrite (lower_char_decimal c Hc), (IH Hw).
Qed.

Lemma at_dollar_lower rest : at_dollar rest = true -> lower rest = rest.
Proof. by intros [->| ->]%at_dollar_cases. Qed.

Lemma USERNAME_RE_lower x : USERNAME_RE x = true -> USERNAME_RE (lower x) = true.
Proof.
  intros Hu. pose proof (USERNAME_RE_at x Hu) as Hat.
  destruct x as [|c t]; [done|]. cbn [startswith] in Hat.
  apply andb_true_iff in Hat as [Hc%Ascii.eqb_eq _]. subst c.
  change (lower (String "@" t)) with (String "@" (lower t)).
  unfold USERNAME_RE in *. rewrite (span_lower isword_char t isword_lower_char).
  destruct (span isword_char t) as [w rest]. cbn [fst snd].
  apply andb_true_iff in Hu as [Hlen Hr]. rewrite length_lower, Hlen.
  by rewrite (at_dollar_lower rest Hr), Hr.
Qed.

Lemma ID_RE_lower x : ID_RE x = true -> lower x = x.
Proof.
  intros Hid. destruct (ID_RE_shape x Hid) as (w & rest & Hw & _ & Hr & Hx).
  assert (Hl : lower (w ++ rest) = w ++ rest).
  { by rewrite lower_append, (lower_decimal w Hw), (at_dollar_lower rest Hr). }
  destruct x as [|c r]; [done|]. rewrite strip_one_dash_cons in Hx.
  destruct (Ascii.eqb_spec c "-") as [->|_].
  - subst r. cbn [lower]. by rewrite Hl.
  - by rewrite Hx.
Qed.

Lemma ID_RE_at x : startswith "@" x = true -> ID_RE x = false.
Proof.
  destruct x as [|c t]; [done|]. cbn [startswith].
  intros [Hc%Ascii.eqb_eq _]%andb_true_iff. subst c. reflexivity.
Qed.

(** The normal form of a stripped valid value is valid and in lower case. *)
Lemma valid_value_normalize x :
  strip x = x -> valid_value x ->
  valid_value (normalize_entry x) /\ lower (normalize_entry x) = normalize_entry x.
Proof.
  intros Hs Hv. unfold normalize_entry. rewrite Hs. unfold valid_value in *.
  destruct (startswith "@" x) eqn:Hat.
  - rewrite lower_idem. split; [|done].
    rewrite (ID_RE_at x Hat), orb_false_r in Hv.
    by rewrite (USERNAME_RE_lower x Hv).
  - split; [done|]. apply orb_true_iff in Hv as [Hu|Hi]; [|by apply ID_RE_lower].
    apply USERNAME_RE_at in Hu. congruence.
Qed.

Lemma merge_entries_valid_lower old new r :
  Forall entry_read (old ++ new) ->
  (forall e, e ∈ (old ++ new)%list -> valid_value e.1) ->
  merge_entries old new = Ok r ->
  Forall (fun e : entry => valid_value e.1 /\ lower e.1 = e.1) r.
Proof.
  intros Hin Hv Hr. apply Forall_forall. intros [v c] He.
  apply (merge_entries_first_at old new r v c Hr) in He.
  destruct He as (pre & [x cx] & post & Hl & <- & <- & _). cbn [fst snd].
  assert (Hx : (x, cx) ∈ (old ++ new)%list).
  { rewrite Hl. apply elem_of_app. right. by apply elem_of_cons; left. }
  rewrite Forall_forall in Hin. destruct (Hin _ Hx) as (_ & Hs & _).
  apply valid_value_normalize; [done|]. by apply (Hv (x, cx)).
Qed.

(** X15. The text [main] builds from the target file, the source file and
    their merge has exactly one line starting with the marker and ends
    with exactly one line feed. *)
Theorem merge_pipeline_text (fs : gmap string node) tgt src now h e1 h2 e2 m :
  read_file fs tgt = Ok (h, e1) -> read_file fs src = Ok (h2, e2) ->
  merge_entries e1 e2 = Ok m ->
  marker_lines (build_contents now h m) = 1 /\
  trailing_lf (build_contents now h m) = 1.
Proof.
  intros [Hh H1]%read_file_wf [_ H2]%read_file_wf Hm.
  apply build_contents_wf; [done|].
  apply (merge_entries_entry_read e1 e2); [|done]. by apply Forall_app.
Qed.

(** X16. Once [main] has written that text to the target, reading the
    target returns the merged entries, which have pairwise different
    normalized keys; the header read is the old header with its marker
    lines replaced by the new one, and a blank line more when there are
    entries. *)
Theorem merge_pipeline_read_back (fs : gmap string node) tgt src now h e1 h2 e2 m :
  read_file fs tgt = Ok (h, e1) -> read_file fs src = Ok (h2, e2) ->
  merge_entries e1 e2 = Ok m ->
  NoDup (map (fun e : entry => normalize_entry e.1) m) /\
  read_file (<[tgt := RegularFile (build_contents now h m)]> fs) tgt =
  Ok (((List.filter (fun x => negb (startswith merged_on x)) h ++ [gen_line now])
       ++ match m with [] => [] | _ => [""] end)%list, m).
Proof.
  intros [Hh H1]%read_file_wf [_ H2]%read_file_wf Hm.
  assert (Hin : Forall entry_read (e1 ++ e2)) by (by apply Forall_app).
  split.
  - assert (Hid : map (fun e : entry => normalize_entry e.1) m = map fst m).
    { apply map_ext_in. intros e He%list_elem_of_In.
      apply (merge_entries_values_fixed e1 e2 m); [|done..].
      intros x Hx. apply entry_read_lstrip. rewrite Forall_forall in Hin. by apply Hin. }
    rewrite Hid. by apply (merge_entries_values_nodup e1 e2).
  - apply read_file_build_contents; [done| |apply lookup_insert_eq].
    by apply (merge_entries_entry_read e1 e2).
Qed.

(** X17. When every value of the two files matches one of the validator's
    grammars and has at most 4300 digits, [main]'s merge returns and the
    text it builds passes [validate]. *)
Theorem merge_pipeline_validates (fs : gmap string node) tgt src now h e1 h2 e2 :
  read_file fs tgt = Ok (h, e1) -> read_file fs src = Ok (h2, e2) ->
  (forall e, e ∈ (e1 ++ e2)%list ->
     valid_value e.1 /\ (count_decimal e.1 <= max_str_digits)%N) ->
  exists m, merge_entries e1 e2 = Ok m /\
            validate (splitlines (build_contents now h m)) = [].
Proof.
  intros [Hh H1]%read_file_wf [_ H2]%read_file_wf Hvc.
  assert (Hv : forall e, e ∈ (e1 ++ e2)%list -> valid_value e.1)
    by (intros e He; by destruct (Hvc e He)).
  assert (Hin : Forall entry_read (e1 ++ e2)) by (by apply Forall_app).
  destruct (merge_entries_valid_ok e1 e2 Hvc) as [m Hm]. exists m. split; [done|].
  pose proof (merge_entries_valid_lower e1 e2 m Hin Hv Hm) as Hvl.
  apply validate_rendered_text; [done|by apply (merge_entries_entry_read e1 e2)|..].
  - eapply Forall_impl; [exact Hvl|]. by intros e [? _].
  - assert (Hid : map (fun e : entry => lower e.1) m = map fst m).
    { apply map_ext_in. intros e He%list_elem_of_In.
      rewrite Forall_forall in Hvl. by destruct (Hvl e He). }
    rewrite Hid. by apply (merge_entries_values_nodup e1 e2).
Qed.

Lemma two_files_target :
  read_file two_files "blacklist.txt" = Ok (["# my list"], [("123", "spam")]).
Proof. vm_compute. reflexivity. Defined.

Lemma two_files_source :
  read_file two_files "upstream.txt" = Ok ([], [("456", ""); ("@Annie", "")]).
Proof. vm_compute. reflexivity. Defined.

Lemma two_files_merged :
  merge_entries [("123", "spam")] [("456", ""); ("@Annie", "")]
  = Ok [("123", "spam"); ("456", ""); ("@annie", "")].
Proof. vm_compute. reflexivity. Defined.

Lemma merge_pipeline_text_witness :
  marker_lines (build_contents a_time ["# my list"]
                  [("123", "spam"); ("456", ""); ("@annie", "")]) = 1 /\
  trailing_lf (build_contents a_time ["# my list"]
                 [("123", "spam"); ("456", ""); ("@annie", "")]) = 1.
Proof.
  exact (merge_pipeline_text two_files "blacklist.txt" "upstream.txt" a_time _ _ _ _ _
           two_files_target two_files_source two_files_merged).
Defined.

Lemma merge_pipeline_read_back_witness :
  read_file
    (<["blacklist.txt" := RegularFile
         (build_contents a_time ["# my list"]
            [("123", "spam"); ("456", ""); ("@annie", "")])]> two_files) "blacklist.txt"
  = Ok (["# my list"; "# Merged on 2024-03-07 09:05 UTC"; ""],
        [("123", "spam"); ("456", ""); ("@annie", "")]).
Proof.
  exact (proj2 (merge_pipeline_read_back two_files "blacklist.txt" "upstream.txt" a_time
                  _ _ _ _ _ two_files_target two_files_source two_files_merged)).
Defined.

Lemma merge_pipeline_validates_witness :
  exists m, merge_entries [("123", "spam")] [("456", ""); ("@Annie", "")] = Ok m /\
            validate (splitlines (build_contents a_time ["# my list"] m)) = [].
Proof.
  apply (merge_pipeline_validates two_files "blacklist.txt" "upstream.txt" a_time _ _ _ _
           two_files_target two_files_source).
  intros e He. apply list_elem_of_In in He. simpl in He.
  destruct He as [<-|[<-|[<-|[]]]]; (split; [reflexivity|vm_compute; discriminate]).
Defined.

(** ** Single lines *)

(** X18. [normalize_entry] applied twice gives what it gives once, on
    values that do not begin with whitespace. *)
Theorem normalize_entry_twice (s : string) :
  lstrip s = s -> normalize_entry (normalize_entry s) = normalize_entry s.
Proof. apply normalize_entry_idem. Qed.

Lemma normalize_entry_twice_witness :
  lstrip "@User  " = "@User  " /\
  normalize_entry (normalize_entry "@User  ") = normalize_entry "@User  ".
Proof.
  assert (H : lstrip "@User  " = "@User  ") by reflexivity.
  split; [exact H|]. exact (normalize_entry_twice _ H).
Defined.

(** X19. Both parts [split_main_and_comment] returns are stripped and the
    main part holds no ['#']; for a line without ['#'] the main part is the
    stripped line and the comment is empty. *)
Theorem split_main_and_comment_parts (s main comment : string) :
  split_main_and_comment s = (main, comment) ->
  strip main = main /\ strip comment = comment /\ no_hash main /\
  (no_hash s -> main = strip s /\ comment = "").
Proof.
  intros H. destruct (split_main_and_comment_wf s main comment H) as (Hm & Hc & Hh & _).
  repeat split; [done..| |].
  - unfold split_main_and_comment in H. rewrite (no_hash_partition s H0) in H.
    by injection H as <- _.
  - unfold split_main_and_comment in H. rewrite (no_hash_partition s H0) in H.
    by injection H as _ <-.
Qed.

Lemma split_main_and_comment_parts_witness :
  split_main_and_comment " 123 # spam # more " = ("123", "spam # more") /\
  strip "123" = "123" /\ strip "spam # more" = "spam # more" /\ no_hash "123".
Proof.
  assert (H : split_main_and_comment " 123 # spam # more " = ("123", "spam # more"))
    by reflexivity.
  split; [exact H|].
  destruct (split_main_and_comment_parts _ _ _ H) as (H1 & H2 & H3 & _).
  repeat split; assumption.
Defined.

Lemma rstrip_lstrip_comm s : rstrip (lstrip s) = lstrip (rstrip s).
Proof.
  induction s as [|c s IH]; [done|]. destruct (isspace c) eqn:Hc.
  - cbn [lstrip rstrip]. rewrite Hc, IH. destruct (rstrip s) as [|d r]; [done|].
    cbn [lstrip]. by rewrite Hc.
  - destruct (rstrip_head c s Hc) as [r Hr]. cbn [lstrip]. rewrite Hc, Hr.
    cbn [lstrip]. by rewrite Hc.
Qed.

Lemma before_hash_lstrip s : before_hash (lstrip s) = lstrip (before_hash s).
Proof.
  unfold before_hash. induction s as [|c s IH]; [done|]. cbn [lstrip partition].
  destruct (isspace c) eqn:Hc.
  - destruct (Ascii.eqb_spec c "#") as [->|_]; [done|]. rewrite IH.
    destruct (partition "#" s) as [[a b]|]; cbn [lstrip]; by rewrite Hc.
  - cbn [partition]. destruct (Ascii.eqb c "#"); [done|].
    destruct (partition "#" s) as [[a b]|]; cbn [lstrip]; by rewrite Hc.
Qed.

Lemma strip_lstrip s : strip (lstrip s) = strip s.
Proof. unfold strip. by rewrite lstrip_idem. Qed.

Lemma lstrip_nil_strip s : lstrip s = "" -> strip s = "".
Proof. unfold strip. by intros ->. Qed.

(** X20. The reader and the validator take the same value from a line: the
    main part [validate] checks is the value of the entry that [read_file]
    makes of the line once the header is over, and one skips the line
    exactly when the other does. *)
Theorem main_part_entry_of_line (raw : string) :
  main_part raw = fst <$> entry_of_line raw.
Proof.
  unfold entry_of_line.
  assert (Hm : (split_main_and_comment (rstrip raw)).1
               = strip (before_hash (strip raw))).
  { rewrite split_main_fst.
    assert (Hs : strip raw = lstrip (rstrip raw)) by apply rstrip_lstrip_comm.
    by rewrite Hs, before_hash_lstrip, strip_lstrip. }
  destruct (split_main_and_comment (rstrip raw)) as [main comment]. cbn [fst] in Hm.
  unfold main_part. cbv zeta. rewrite <- Hm.
  destruct (negb (nonempty (strip raw)) || startswith "#" (strip raw)) eqn:Hskip;
    [|by destruct (nonempty main)].
  assert (Hmain : main = ""); [|by rewrite Hmain].
  rewrite Hm. apply orb_true_iff in Hskip as [Hs|Hs].
  - by destruct (strip raw).
  - destruct (strip raw) as [|c r]; [done|]. cbn [startswith] in Hs.
    apply andb_true_iff in Hs as [Hc%Ascii.eqb_eq _]. subst c. reflexivity.
Qed.

(** X21. For a header and entries as [read_file] keeps them (header lines
    stripped on the right, empty or starting with ['#']; values non-empty,
    stripped and free of ['#']; comments stripped; no line boundary
    anywhere), the lines of the text [build_contents] writes are, in
    order: the header lines that do not start with the marker, the new
    marker line and, when there are entries, a blank line and one rendered
    line for each entry. *)
Theorem build_contents_layout now header entries :
  Forall header_line header -> Forall entry_read entries ->
  splitlines (build_contents now header entries) =
  ((List.filter (fun h => negb (startswith merged_on h)) header ++ [gen_line now])
   ++ match entries with [] => [] | _ => "" :: map render_entry entries end)%list.
Proof. apply build_contents_splitlines. Qed.

Lemma build_contents_layout_witness :
  Forall header_line ["# my list"; "# Merged on 2020-01-01 00:00 UTC"] /\
  Forall entry_read [("123", "spam"); ("@annie", "")] /\
  splitlines (build_contents a_time ["# my list"; "# Merged on 2020-01-01 00:00 UTC"]
                [("123", "spam"); ("@annie", "")])
  = ["# my list"; "# Merged on 2024-03-07 09:05 UTC"; ""; "123  # spam"; "@annie"].
Proof.
  assert (H1 : Forall header_line ["# my list"; "# Merged on 2020-01-01 00:00 UTC"]).
  { constructor; [|constructor; [|constructor]];
      (split; [reflexivity|split; [right; reflexivity|reflexivity]]). }
  assert (H2 : Forall entry_read [("123", "spam"); ("@annie", "")]).
  { repeat constructor; simpl; discriminate. }
  split; [exact H1|]. split; [exact H2|].
  etransitivity; [exact (build_contents_layout a_time _ _ H1 H2)|reflexivity].
Defined.

Lemma merge_entries_raises_iff_witness :
  exists e, merge_entries [("7", "")] [("--5", "")] = Raise e.
Proof.
  apply (proj2 (merge_entries_raises_iff [("7", "")] [("--5", "")])).
  exists "--5". split; [|split; reflexivity].
  apply list_elem_of_In. simpl. auto.
Defined.

Lemma validate_accepts_iff_witness :
  validate ["# ids"; "@abcde"; "12  # spam"] = [].
Proof.
  apply (proj2 (validate_accepts_iff ["# ids"; "@abcde"; "12  # spam"])).
  intros k raw m Hk Hm.
  destruct k as [|[|[|k]]]; cbn in Hk; try discriminate; injection Hk as <-;
    vm_compute in Hm; try discriminate; injection Hm as <-;
    (split; [reflexivity|]);
    match goal with
    | |- ?x ∉ ?X => apply (bool_decide_unpack (x ∉ X)); vm_compute; exact I
    end.
Defined.

Lemma validate_violations_located_witness :
  exists raw, 1 <= 2 /\ ["@abcde"; " @abcd "] !! (2 - 1) = Some raw /\
              "@abcd" = strip raw /\ "@abcd" <> "" /\ startswith "#" "@abcd" = false.
Proof.
  apply (proj1 (validate_violations_located ["@abcde"; " @abcd "]) 2 "@abcd" InvalidFormat).
  apply list_elem_of_In. vm_compute. auto.
Defined.

(** ** A second run *)

Lemma filter_filter {A} (f : A -> bool) (l : list A) :
  List.filter f (List.filter f l) = List.filter f l.
Proof.
  induction l as [|x l IH]; [done|]. cbn [List.filter].
  destruct (f x) eqn:Hx; [|done]. cbn [List.filter]. by rewrite Hx, IH.
Qed.

(** X22. After a text with at least one entry has been written to the
    target, the text [main] builds on a later run is never equal to the
    content of the target, whatever the clock and the merged entries: the
    header read back ends with a blank line, which is written before the
    new marker line.  The test [old_contents == new_contents] then fails. *)
Theorem rerun_text_differs (fs : gmap string node) tgt now1 now2
    header entries h' e' entries2 :
  Forall header_line header -> Forall entry_read entries -> entries <> [] ->
  fs !! tgt = Some (RegularFile (build_contents now1 header entries)) ->
  read_file fs tgt = Ok (h', e') ->
  Forall entry_read entries2 ->
  build_contents now2 h' entries2 <> build_contents now1 header entries.
Proof.
  intros Hh He Hne Hfs Hread He2 Heq.
  pose proof (read_file_build_contents now1 header entries fs tgt Hh He Hfs) as Hrb.
  rewrite Hread in Hrb.
  assert (Hh2 : h' = ((List.filter (fun h => negb (startswith merged_on h)) header
                       ++ [gen_line now1])
                      ++ match entries with [] => [] | _ => [""] end)%list)
    by congruence.
  subst h'. clear Hrb Hread.
  set (hf := List.filter (fun h => negb (startswith merged_on h)) header) in *.
  assert (Hh' : Forall header_line
                  ((hf ++ [gen_line now1]) ++ match entries with [] => [] | _ => [""] end)%list).
  { apply Forall_app. split; [by apply header_out_header_line|].
    destruct entries; [constructor|]. by repeat constructor. }
  apply (f_equal splitlines) in Heq.
  rewrite (build_contents_splitlines now2 _ entries2 Hh' He2) in Heq.
  rewrite (build_contents_splitlines now1 header entries Hh He) in Heq.
  fold hf in Heq. destruct entries as [|e entries]; [done|].
  rewrite !List.filter_app in Heq. unfold hf in Heq at 1. rewrite filter_filter in Heq.
  fold hf in Heq. cbn [List.filter] in Heq.
  rewrite gen_line_marker in Heq. cbn [negb app] in Heq.
  change (negb (startswith merged_on "")) with true in Heq. cbv iota in Heq.
  rewrite app_nil_r, <- !app_assoc in Heq. apply app_inv_head in Heq.
  cbn [app] in Heq. by injection Heq.
Qed.

Lemma rerun_text_differs_witness :
  build_contents a_time ["# my list"; "# Merged on 2024-03-07 09:05 UTC"; ""] [("123", "spam")]
  <> build_contents a_time ["# my list"] [("123", "spam")].
Proof.
  apply (rerun_text_differs
           (<["blacklist.txt" := RegularFile
                (build_contents a_time ["# my list"] [("123", "spam")])]> ∅)
           "blacklist.txt" a_time a_time ["# my list"] [("123", "spam")]
           _ [("123", "spam")] [("123", "spam")]).
  - constructor; [|constructor]. split; [reflexivity|split; [right; reflexivity|reflexivity]].
  - repeat constructor; simpl; discriminate.
  - discriminate.
  - apply lookup_insert_eq.
  - vm_compute. reflexivity.
  - repeat constructor; simpl; discriminate.
Defined.

(** ** The grammars of the validator *)

Lemma isword_char_class c : isword_char c = char_in c class_chars.
Proof. destruct c as [[] [] [] [] [] [] [] []]; vm_compute; reflexivity. Qed.

Lemma isdecimal_char_digits c : isdecimal_char c = char_in c digit_chars.
Proof. destruct c as [[] [] [] [] [] [] [] []]; vm_compute; reflexivity. Qed.

Lemma forallb_str_ext f g s :
  (forall c, f c = g c) -> forallb_str f s = forallb_str g s.
Proof.
  intros Hfg. induction s as [|c s IH]; [done|]. cbn [forallb_str]. by rewrite Hfg, IH.
Qed.

Lemma all_in_class w : all_in class_chars w <-> forallb_str isword_char w = true.
Proof. unfold all_in. by rewrite (forallb_str_ext isword_char _ w isword_char_class). Qed.

Lemma all_in_digits d : all_in digit_chars d <-> forallb_str isdecimal_char d = true.
Proof. unfold all_in. by rewrite (forallb_str_ext isdecimal_char _ d isdecimal_char_digits). Qed.

Lemma span_all f w : forallb_str f w = true -> span f w = (w, "").
Proof.
  induction w as [|c w IH]; [done|]. cbn [forallb_str span].
  intros [Hc Hw]%andb_true_iff. by rewrite Hc, (IH Hw).
Qed.

Lemma rstrip_length s : String.length (rstrip s) <= String.length s.
Proof.
  induction s as [|c s IH]; [done|]. cbn [rstrip].
  destruct (rstrip s) as [|d r]; [destruct (isspace c)|]; simpl in *; lia.
Qed.

(** A stripped string does not end with the line feed that [$] lets by. *)
Lemma stripped_at_dollar m a rest :
  strip m = m -> m = a ++ rest -> at_dollar rest = true -> rest = "".
Proof.
  intros [_ Hr]%strip_fixed Hm [->| ->]%at_dollar_cases; [done|]. exfalso.
  pose proof (rstrip_length a) as Hlen.
  rewrite Hm, (rstrip_append_spaces a newline eq_refl) in Hr.
  rewrite Hr, length_append in Hlen. simpl in Hlen. lia.
Qed.

Lemma USERNAME_RE_grammar m :
  strip m = m -> USERNAME_RE m = true <-> username_grammar m.
Proof.
  intros Hs. split.
  - intros Hu. pose proof (USERNAME_RE_at m Hu) as Hat.
    destruct m as [|c t]; [done|]. cbn [startswith] in Hat.
    apply andb_true_iff in Hat as [Hc%Ascii.eqb_eq _]. subst c.
    unfold USERNAME_RE in Hu. destruct (span isword_char t) as [w rest] eqn:Hsp.
    apply span_spec in Hsp as [-> Hw].
    apply andb_true_iff in Hu as [[H5 H32]%andb_true_iff Hr].
    assert (Hrest : rest = "").
    { apply (stripped_at_dollar (String "@" (w ++ rest)) (String "@" w) rest Hs); done. }
    subst rest. rewrite append_nil_r. exists w. split; [done|].
    split; [split; [by apply Nat.leb_le|by apply Nat.leb_le]|by apply all_in_class].
  - intros (w & -> & [H5 H32] & Hw%all_in_class). unfold USERNAME_RE.
    rewrite (span_all isword_char w Hw).
    apply Nat.leb_le in H5. apply Nat.leb_le in H32. by rewrite H5, H32.
Qed.

Lemma ID_RE_grammar m :
  strip m = m -> ID_RE m = true <-> integer_grammar m.
Proof.
  intros Hs. split.
  - intros Hid. destruct (ID_RE_shape m Hid) as (d & rest & Hd & Hne & Hr & Hm).
    destruct m as [|c r]; [by destruct d|]. rewrite strip_one_dash_cons in Hm.
    destruct (Ascii.eqb_spec c "-") as [->|_].
    + subst r.
      assert (Hrest : rest = "").
      { apply (stripped_at_dollar (String "-" (d ++ rest)) (String "-" d) rest Hs); done. }
      subst rest. rewrite append_nil_r. exists d. split; [by right|].
      split; [done|by apply all_in_digits].
    + assert (Hrest : rest = "").
      { apply (stripped_at_dollar (String c r) d rest Hs); done. }
      subst rest. rewrite append_nil_r in Hm. exists d. split; [by left|].
      split; [done|by apply all_in_digits].
  - intros (d & Hm & Hne & Hd%all_in_digits).
    assert (Hsp : span isdecimal_char d = (d, "")) by (by apply span_all).
    assert (Hn : nonempty d = true) by (by apply nonempty_true).
    unfold ID_RE.
    change (match m with String "-" r => r | _ => m end) with (strip_one_dash m).
    destruct Hm as [->| ->].
    + destruct d as [|c d]; [done|]. rewrite strip_one_dash_cons.
      cbn [forallb_str] in Hd. pose proof Hd as [Hc _]%andb_true_iff.
      rewrite (isdigit_char_not_dash c (isdecimal_isdigit_char c Hc)).
      by rewrite Hsp, Hn.
    + rewrite strip_one_dash_cons. change (Ascii.eqb "-" "-") with true. cbv iota.
      by rewrite Hsp, Hn.
Qed.

Lemma main_part_stripped raw m : main_part raw = Some m -> strip m = m.
Proof.
  unfold main_part. cbv zeta.
  destruct (negb (nonempty (strip raw)) || startswith "#" (strip raw)); [done|].
  destruct (nonempty (strip (before_hash (strip raw)))); [|done].
  intros [= <-]. apply strip_idem.
Qed.

Lemma lone_username_class w :
  all_in class_chars w ->
  validate [String "@" w] =
  if (5 <=? String.length w)%nat && (String.length w <=? 32)%nat then []
  else [(1, String "@" w, InvalidFormat)].
Proof. intros Hw%all_in_class. by apply validate_lone_username. Qed.

(** C9. A retained line whose key is new is reported for its format exactly
    when its main part is neither ['@'] followed by 5 to 32 characters of
    [A-Za-z0-9_] nor an optional ['-'] followed by one or more digits, and
    gets no violation at all when it is one of the two.  So ['@abcde']
    passes, ['@abcd'] and ['@'] followed by 33 class characters are
    reported, as are a character outside the class and text after the
    value, and integer ids pass. *)
Theorem validate_username_grammar :
  (forall lines k raw m,
      lines !! k = Some raw -> main_part raw = Some m ->
      lower m ∉ keys_of (take k lines) ->
      ((S k, strip raw, InvalidFormat) ∈ validate lines <->
       ~ (username_grammar m \/ integer_grammar m)) /\
      (username_grammar m \/ integer_grammar m ->
       forall l r, (S k, l, r) ∉ validate lines)) /\
  (forall w, all_in class_chars w ->
      validate [String "@" w] =
      if (5 <=? String.length w)%nat && (String.length w <=? 32)%nat then []
      else [(1, String "@" w, InvalidFormat)]) /\
  validate ["@abcde"] = [] /\
  validate ["@abcd"] = [(1, "@abcd", InvalidFormat)] /\
  validate ["@abcdefghijklmnopqrstuvwxyz0123456"]
    = [(1, "@abcdefghijklmnopqrstuvwxyz0123456", InvalidFormat)] /\
  String.length "abcdefghijklmnopqrstuvwxyz0123456" = 33 /\
  validate ["@abc-de"; "@abcde!"; "@abcde x"; "12"; "-7"; "1-2"]
    = [(1, "@abc-de", InvalidFormat); (2, "@abcde!", InvalidFormat);
       (3, "@abcde x", InvalidFormat); (6, "1-2", InvalidFormat)].
Proof.
  split; [|split; [apply lone_username_class|repeat split; vm_compute; reflexivity]].
  intros lines k raw m Hk Hm Hfresh.
  pose proof (main_part_stripped raw m Hm) as Hs.
  assert (Hvalid : USERNAME_RE m = false /\ ID_RE m = false <->
                   ~ (username_grammar m \/ integer_grammar m)).
  { rewrite <- (USERNAME_RE_grammar m Hs), <- (ID_RE_grammar m Hs).
    destruct (USERNAME_RE m), (ID_RE m); intuition congruence. }
  assert (Hrep : forall l r, (S k, l, r) ∈ validate lines ->
                 r = InvalidFormat /\ USERNAME_RE m = false /\ ID_RE m = false).
  { intros l r Hin. apply validate_spec in Hin.
    destruct Hin as (k' & raw' & m' & Hn & Hk' & _ & Hm' & Hr). cbn [fst snd] in *.
    assert (k' = k) by lia. subst k'.
    rewrite Hk in Hk'. injection Hk' as <-. rewrite Hm in Hm'. injection Hm' as <-.
    destruct Hr as [[_ [Hin|Hin]%elem_of_union]|(-> & _ & Hu & Hi)]; [|done|done].
    by apply elem_of_empty in Hin. }
  split; [split|].
  - intros Hin. apply Hvalid. by destruct (Hrep _ _ Hin) as (_ & ? & ?).
  - intros [Hu Hi]%Hvalid. apply validate_spec. exists k, raw, m. cbn [fst snd].
    repeat split; [done..|]. right. repeat split; [|done..].
    by intros [Hin|Hin]%elem_of_union; [apply elem_of_empty in Hin|].
  - intros Hg l r Hin. destruct (Hrep _ _ Hin) as (_ & Hu & Hi).
    by apply (proj1 Hvalid).
Qed.

Lemma validate_username_grammar_witness :
  ["@abcde"; "@abcd#x"] !! 1 = Some "@abcd#x" /\
  main_part "@abcd#x" = Some "@abcd" /\
  ((2, strip "@abcd#x", InvalidFormat) ∈ validate ["@abcde"; "@abcd#x"] <->
   ~ (username_grammar "@abcd" \/ integer_grammar "@abcd")).
Proof.
  assert (H1 : ["@abcde"; "@abcd#x"] !! 1 = Some "@abcd#x") by reflexivity.
  assert (H2 : main_part "@abcd#x" = Some "@abcd") by reflexivity.
  assert (H3 : lower "@abcd" ∉ keys_of (take 1 ["@abcde"; "@abcd#x"])).
  { apply (bool_decide_unpack (lower "@abcd" ∉ keys_of (take 1 ["@abcde"; "@abcd#x"]))).
    vm_compute. exact I. }
  split; [exact H1|]. split; [exact H2|].
  exact (proj1 (proj1 validate_username_grammar _ _ _ _ H1 H2 H3)).
Defined.
